(** * fasta2genes: gene extraction, validity check and per-gene grouping

    A shallow embedding of [python/fast2genes/fasta2genes.py].

    Python 2 [str] values are byte strings: they are modelled as
    [list ascii].  Python integers are unbounded: they are [Z].  The
    dictionary of [processFastaFile] is a [gmap] keyed by gene name.
    Operations that can raise ([fields[i]], [int(..)], [genelist[k]])
    return a [result]; slicing, [replace], [lstrip], [rstrip], [count],
    [startswith] and ['X' * n] cannot raise on these argument types and
    are total functions.

    The module-level flag [debug] only guards [print] statements, whose
    output is never read back by the program; the embedding keeps the
    values that are computed and returned, not the text printed. *)

From Stdlib Require Import ZArith Ascii String.
From stdpp Require Import base numbers list strings gmap.

Local Open Scope Z_scope.
Local Open Scope list_scope.

(** ** Python values and exceptions *)

Abbreviation str := (list ascii).

(** A string literal of the source. *)
Definition lit (s : string) : str := list_ascii_of_string s.

Inductive exn : Type :=
| IndexError
| ValueError
| KeyError.

Inductive result (A : Type) : Type :=
| Ok (a : A)
| Raise (e : exn).
Arguments Ok {A} a.
Arguments Raise {A} e.

Definition bind {A B : Type} (r : result A) (k : A -> result B) : result B :=
  match r with
  | Ok a => k a
  | Raise e => Raise e
  end.

Notation "'let*' x ':=' r 'in' k" := (bind r (fun x => k))
  (at level 10, x name, r at level 200, k at level 200).

(** ** The built-in string operations the program uses *)

Module Py.

(** [len(s)] *)
Definition len (s : str) : Z := Z.of_nat (length s).

(** Index adjustment of a slice bound: a negative bound counts from the
    end, and the bound is then clamped to [0 .. len]. *)
Definition adjust (n i : Z) : Z :=
  if i <? 0 then Z.max (i + n) 0 else Z.min i n.

(** [s[a:b]]: never raises; an empty string when the adjusted bounds
    cross. *)
Definition slice (s : str) (a b : Z) : str :=
  let lo := adjust (len s) a in
  let hi := adjust (len s) b in
  take (Z.to_nat (hi - lo)) (drop (Z.to_nat lo) s).

(** [s.replace(old, new)] for one-character [old] and [new]. *)
Definition replace (old new : ascii) (s : str) : str :=
  map (fun c => if Ascii.eqb c old then new else c) s.

(** [s.lstrip(c)] for a one-character [c]. *)
Fixpoint lstrip (c : ascii) (s : str) : str :=
  match s with
  | [] => []
  | x :: s' => if Ascii.eqb x c then lstrip c s' else s
  end.

(** [s.rstrip(c)] for a one-character [c]. *)
Fixpoint rstrip (c : ascii) (s : str) : str :=
  match s with
  | [] => []
  | x :: s' =>
      match rstrip c s' with
      | [] => if Ascii.eqb x c then [] else [x]
      | r => x :: r
      end
  end.

(** [c * n] for a one-character [c]: empty when [n <= 0]. *)
Definition mul (c : ascii) (n : Z) : str := replicate (Z.to_nat n) c.

(** [s.count(c)] for a one-character [c]. *)
Fixpoint count (c : ascii) (s : str) : Z :=
  match s with
  | [] => 0
  | x :: s' => (if Ascii.eqb x c then 1 else 0) + count c s'
  end.

(** [s.startswith(c)] for a one-character [c]. *)
Definition startswith (c : ascii) (s : str) : bool :=
  match s with
  | [] => false
  | x :: _ => Ascii.eqb x c
  end.

(** [s.split()]: the maximal runs of characters that are not white
    space, in order; never an empty token. *)
Fixpoint split (s : str) : list str :=
  match s with
  | [] => []
  | x :: s' =>
      if Ascii.is_space x then split s'
      else
        match s' with
        | [] => [[x]]
        | y :: _ =>
            if Ascii.is_space y then [x] :: split s'
            else
              match split s' with
              | w :: ws => (x :: w) :: ws
              | [] => [[x]]
              end
        end
  end.

(** [l[i]] for a constant index [i >= 0]: [IndexError] out of range. *)
Definition getitem {A : Type} (l : list A) (i : nat) : result A :=
  match l !! i with
  | Some a => Ok a
  | None => Raise IndexError
  end.

Definition digit (c : ascii) : option Z :=
  let n := Z.of_N (N_of_ascii c) in
  if (48 <=? n) && (n <=? 57) then Some (n - 48) else None.

Fixpoint digits (acc : Z) (s : str) : option Z :=
  match s with
  | [] => Some acc
  | c :: s' =>
      match digit c with
      | Some d => digits (10 * acc + d) s'
      | None => None
      end
  end.

(** [int(s)] for a string without white space (a token of [split]):
    an optional sign and at least one decimal digit, [ValueError]
    otherwise. *)
Definition int (s : str) : result Z :=
  let '(sign, body) :=
    match s with
    | "-"%char :: r => (-1, r)
    | "+"%char :: r => (1, r)
    | _ => (1, s)
    end in
  match body with
  | [] => Raise ValueError
  | _ =>
      match digits 0 body with
      | Some n => Ok (sign * n)
      | None => Raise ValueError
      end
  end.

End Py.

(** ** The two record types *)

(** [GeneInfo = namedtuple('GeneInfo', 'name start end')] *)
Module GeneInfo.
Record t : Type := mk { name : str; start : Z; end_ : Z }.
End GeneInfo.

(** [SpeciesInfo = namedtuple('SpeciesInfo', 'name, sequence')] *)
Module SpeciesInfo.
Record t : Type := mk { name : str; sequence : str }.
End SpeciesInfo.

Definition chX : ascii := "X"%char.
Definition chDash : ascii := "-"%char.
Definition chQuery : ascii := "?"%char.

(** ** isValidGene and extractGene *)

Definition isValidGene (gene : SpeciesInfo.t) : bool :=
  if Py.startswith chX (SpeciesInfo.sequence gene) then
    if Py.count chX (SpeciesInfo.sequence gene)
       =? Py.len (SpeciesInfo.sequence gene)
    then false
    else true
  else true.

Definition extractGene (species : SpeciesInfo.t) (gidx : GeneInfo.t)
  : SpeciesInfo.t :=
  let seq :=
    Py.slice (SpeciesInfo.sequence species)
             (GeneInfo.start gidx - 1) (GeneInfo.end_ gidx) in
  let genelen := GeneInfo.end_ gidx - GeneInfo.start gidx + 1 in
  let seq := Py.replace chQuery chX seq in
  let seq := Py.lstrip chDash seq in
  let endseq := Py.mul chX (genelen - Py.len seq) in
  let seq := endseq ++ seq in
  let seq := Py.rstrip chDash seq in
  let endseq := Py.mul chX (genelen - Py.len seq) in
  let seq := seq ++ endseq in
  SpeciesInfo.mk (SpeciesInfo.name species) seq.

(** ** Aggregation: addSpeciesToGeneArray and processFastaFile *)

(** [genelist[k].append(gene)]: [KeyError] when [k] is not a key.  Every
    value of the dictionary is a list of its own (a fresh [[]] per
    assignment in [processFastaFile]), so the append touches one key. *)
Definition append_at (genelist : gmap str (list SpeciesInfo.t))
    (k : str) (gene : SpeciesInfo.t)
  : result (gmap str (list SpeciesInfo.t)) :=
  match genelist !! k with
  | Some l => Ok (<[k := l ++ [gene]]> genelist)
  | None => Raise KeyError
  end.

Fixpoint addSpeciesToGeneArray (species : SpeciesInfo.t)
    (gene_indexes : list GeneInfo.t)
    (genelist : gmap str (list SpeciesInfo.t))
  : result (gmap str (list SpeciesInfo.t)) :=
  match gene_indexes with
  | [] => Ok genelist
  | g :: rest =>
      let gene := extractGene species g in
      if isValidGene gene then
        let* genelist' := append_at genelist (GeneInfo.name g) gene in
        addSpeciesToGeneArray species rest genelist'
      else addSpeciesToGeneArray species rest genelist
  end.

(** The first loop of [processFastaFile]:
    [for g in gene_indexes: gene_species[g.name] = []]. *)
Fixpoint init_gene_species (gene_indexes : list GeneInfo.t)
    (gene_species : gmap str (list SpeciesInfo.t))
  : gmap str (list SpeciesInfo.t) :=
  match gene_indexes with
  | [] => gene_species
  | g :: rest => init_gene_species rest (<[GeneInfo.name g := []]> gene_species)
  end.

(** The second loop of [processFastaFile]:
    [for species in species_list: addSpeciesToGeneArray(..)]. *)
Fixpoint add_all_species (species_list : list SpeciesInfo.t)
    (gene_indexes : list GeneInfo.t)
    (gene_species : gmap str (list SpeciesInfo.t))
  : result (gmap str (list SpeciesInfo.t)) :=
  match species_list with
  | [] => Ok gene_species
  | species :: rest =>
      let* gene_species' := addSpeciesToGeneArray species gene_indexes gene_species in
      add_all_species rest gene_indexes gene_species'
  end.

(** [processFastaFile] from the species read out of the file up to the
    point where the groups are handed to the writer: the dictionary
    [gene_species] after both loops. *)
Definition processFastaFile (species_list : list SpeciesInfo.t)
    (gene_indexes : list GeneInfo.t)
  : result (gmap str (list SpeciesInfo.t)) :=
  let gene_species := init_gene_species gene_indexes ∅ in
  add_all_species species_list gene_indexes gene_species.

(** ** The index parser: readGeneIndexes *)

Definition chNewline : ascii := "010"%char.

(** The body of the loop of [readGeneIndexes] up to the construction of
    the [GeneInfo] record. *)
Definition parse_index_line (line : str) : result GeneInfo.t :=
  let line := Py.rstrip chNewline line in
  let fields := Py.split line in
  let* gname := Py.getitem fields 1 in
  let* f3 := Py.getitem fields 3 in
  let* gstart := Py.int f3 in
  let* f5 := Py.getitem fields 5 in
  let* gend := Py.int f5 in
  Ok (GeneInfo.mk gname gstart gend).

Fixpoint readGeneIndexes_loop (idx_file : list str)
    (gene_list : list GeneInfo.t) : result (list GeneInfo.t) :=
  match idx_file with
  | [] => Ok gene_list
  | line :: rest =>
      let* g := parse_index_line line in
      readGeneIndexes_loop rest (gene_list ++ [g])
  end.

(** [readGeneIndexes] on the lines of the opened index file. *)
Definition readGeneIndexes (idx_file : list str) : result (list GeneInfo.t) :=
  readGeneIndexes_loop idx_file [].

(** ** Auxiliary definitions used in the statements *)

(** The gene length computed by [extractGene]. *)
Definition genelen (gidx : GeneInfo.t) : Z :=
  GeneInfo.end_ gidx - GeneInfo.start gidx + 1.

(** The characters of the species sequence at the 1-based positions
    [start .. end], as far as the sequence has them. *)
Definition window (species : SpeciesInfo.t) (gidx : GeneInfo.t) : str :=
  take (Z.to_nat (genelen gidx))
       (drop (Z.to_nat (GeneInfo.start gidx - 1)) (SpeciesInfo.sequence species)).

(** The range lies fully within the species sequence. *)
Definition within (species : SpeciesInfo.t) (gidx : GeneInfo.t) : Prop :=
  1 ≤ GeneInfo.start gidx ∧ GeneInfo.start gidx ≤ GeneInfo.end_ gidx ∧
  GeneInfo.end_ gidx ≤ Py.len (SpeciesInfo.sequence species).

(** The statements of [extractGene] after the slice, as a function of the
    slice and of [genelen]. *)
Definition cleanup (genelen : Z) (seq : str) : str :=
  let seq := Py.replace chQuery chX seq in
  let seq := Py.lstrip chDash seq in
  let endseq := Py.mul chX (genelen - Py.len seq) in
  let seq := endseq ++ seq in
  let seq := Py.rstrip chDash seq in
  let endseq := Py.mul chX (genelen - Py.len seq) in
  seq ++ endseq.

(** The successive values of [seq] in [cleanup]: after the [lstrip],
    after the left padding, after the [rstrip]. *)
Definition seq_lstripped (seq : str) : str :=
  Py.lstrip chDash (Py.replace chQuery chX seq).

Definition seq_left_padded (genelen : Z) (seq : str) : str :=
  Py.mul chX (genelen - Py.len (seq_lstripped seq)) ++ seq_lstripped seq.

Definition seq_rstripped (genelen : Z) (seq : str) : str :=
  Py.rstrip chDash (seq_left_padded genelen seq).

(** A window made of a run of ['-'], a middle part and a run of ['-']. *)
Definition gap_framed (a : nat) (m : str) (b : nat) : str :=
  replicate a chDash ++ m ++ replicate b chDash.

(** The length of the run of [c] at the start of [s], and at its end. *)
Fixpoint leading (c : ascii) (s : str) : nat :=
  match s with
  | [] => 0
  | x :: s' => if Ascii.eqb x c then S (leading c s') else 0
  end.

Definition trailing (c : ascii) (s : str) : nat := leading c (reverse s).

(** Position [i] of a window [w] lies in its leading or trailing run
    of ['-']. *)
Definition in_edge_gap (w : str) (i : nat) : bool :=
  (i <? leading chDash w)%nat || (length w - trailing chDash w <=? i)%nat.

(** The valid extraction results of one species for the ranges named
    [k], in index order. *)
Definition valid_genes_named (k : str) (gene_indexes : list GeneInfo.t)
    (species : SpeciesInfo.t) : list SpeciesInfo.t :=
  List.filter isValidGene
    (map (extractGene species)
         (List.filter (λ g, bool_decide (GeneInfo.name g = k)) gene_indexes)).

(** The group of the gene name [k]: the valid results of its ranges,
    species after species in the order of the species list. *)
Definition group_of (k : str) (species_list : list SpeciesInfo.t)
    (gene_indexes : list GeneInfo.t) : list SpeciesInfo.t :=
  concat (map (valid_genes_named k gene_indexes) species_list).

(** The lines on which the loop body of [readGeneIndexes] raises: fewer
    than six tokens, or a token 3 or a token 5 that [int] refuses. *)
Definition rejected (line : str) : Prop :=
  let fields := Py.split (Py.rstrip chNewline line) in
  (length fields < 6)%nat ∨
  (∃ f, fields !! 3%nat = Some f ∧ Py.int f = Raise ValueError) ∨
  (∃ f, fields !! 5%nat = Some f ∧ Py.int f = Raise ValueError).

(** The group a result holds for the gene name [k], if any. *)
Definition group_in (r : result (gmap str (list SpeciesInfo.t))) (k : str)
  : option (list SpeciesInfo.t) :=
  match r with
  | Ok gene_species => gene_species !! k
  | Raise _ => None
  end.

(** ** Files: readSpecies, writeGenesSpecies and the run over the files *)

(** What stops a run: an exception of a built-in operation, the read of
    the local [sname] of [readSpecies] before any header line has
    assigned it, the [IOError] of [open] on a file that does not exist,
    or [sys.exit(code)]. *)
Inductive failure : Type :=
| Builtin (e : exn)
| UnboundLocalError
| IOError
| SystemExit (code : Z).

Inductive outcome (A : Type) : Type :=
| Done (a : A)
| Failed (f : failure).
Arguments Done {A} a.
Arguments Failed {A} f.

Definition chGt : ascii := ">"%char.

(** [for line in f]: the lines of a file's content, each with its
    newline, the last one without when the content does not end in
    one. *)
Fixpoint file_lines (content : str) : list str :=
  match content with
  | [] => []
  | c :: rest =>
      if Ascii.eqb c chNewline then [c] :: file_lines rest
      else
        match file_lines rest with
        | [] => [[c]]
        | line :: lines => (c :: line) :: lines
        end
  end.

(** The loop of [readSpecies]; [sname] is [None] as long as no header
    line has been read. *)
Fixpoint readSpecies_loop (fasta_file : list str) (sname : option str)
    (species_list : list SpeciesInfo.t) : outcome (list SpeciesInfo.t) :=
  match fasta_file with
  | [] => Done species_list
  | line :: rest =>
      let line := Py.rstrip chNewline line in
      if Py.startswith chGt line then
        readSpecies_loop rest (Some (Py.slice line 1 (Py.len line))) species_list
      else
        match sname with
        | Some name =>
            readSpecies_loop rest sname
              (species_list ++ [SpeciesInfo.mk name line])
        | None => Failed UnboundLocalError
        end
  end.

(** [readSpecies] on the lines of the opened alignment file. *)
Definition readSpecies (fasta_file : list str) : outcome (list SpeciesInfo.t) :=
  readSpecies_loop fasta_file None [].

(** [genefile.write(data)] on a file opened in append mode. *)
Definition write (genefile data : str) : str := genefile ++ data.

(** The loop of [writeGenesSpecies] on the content of the gene file. *)
Fixpoint write_species (species_list : list SpeciesInfo.t) (genefile : str)
  : str :=
  match species_list with
  | [] => genefile
  | species :: rest =>
      let genefile :=
        write genefile ([chGt] ++ SpeciesInfo.name species ++ [chNewline]) in
      let genefile :=
        write genefile (SpeciesInfo.sequence species ++ [chNewline]) in
      write_species rest genefile
  end.

(** The name of the file of a gene: [genename+".fasta"]. *)
Definition gene_file (genename : str) : str := genename ++ lit ".fasta".

(** [writeGenesSpecies] on the files, a flat map from file name to
    content in which every [open(.., 'a')] succeeds: it starts a file
    that does not exist as empty and keeps the content of one that
    does. *)
Definition writeGenesSpecies (genename : str)
    (species_list : list SpeciesInfo.t) (fs : gmap str str) : gmap str str :=
  <[gene_file genename :=
      write_species species_list (default [] (fs !! gene_file genename))]> fs.


Section Run.

(** The order in which the iteration over a dictionary yields its keys is
    not fixed by the language: it is a parameter. *)
Variable dict_items :
  gmap str (list SpeciesInfo.t) → list (str * list SpeciesInfo.t).

(** The flag [debug], set by the option [-d]. *)
Variable debug : bool.




End Run.

(** The species a header-and-data scan yields once a name is known. *)
Fixpoint species_after (name : str) (fasta_file : list str)
  : list SpeciesInfo.t :=
  match fasta_file with
  | [] => []
  | line :: rest =>
      let line := Py.rstrip chNewline line in
      if Py.startswith chGt line
      then species_after (Py.slice line 1 (Py.len line)) rest
      else SpeciesInfo.mk name line :: species_after name rest
  end.

(** The two lines [writeGenesSpecies] writes for one species. *)
Definition record (species : SpeciesInfo.t) : str :=
  [chGt] ++ SpeciesInfo.name species ++ [chNewline]
  ++ SpeciesInfo.sequence species ++ [chNewline].

Definition records (species_list : list SpeciesInfo.t) : str :=
  concat (map record species_list).

(** A species that the two-line format can hold: no newline in the name
    or in the sequence, and a sequence that does not look like a
    header. *)
Definition writable (species : SpeciesInfo.t) : Prop :=
  (chNewline ∉ SpeciesInfo.name species) ∧
  (chNewline ∉ SpeciesInfo.sequence species) ∧
  head (SpeciesInfo.sequence species) ≠ Some chGt.


#[global] Instance writable_dec (species : SpeciesInfo.t) :
  Decision (writable species).
Proof. unfold writable. apply _. Defined.

(** Membership in a list given by its elements. *)
Ltac elem_of_literal := vm_compute; repeat constructor.

(** * Properties *)

Example extract_scenario :
  extractGene (SpeciesInfo.mk (lit "A") (lit "-XCG-"))
              (GeneInfo.mk (lit "G1") 2 5)
  = SpeciesInfo.mk (lit "A") (lit "XCGX").
Proof. reflexivity. Qed.

Example extract_short :
  extractGene (SpeciesInfo.mk (lit "A") (lit "AC-"))
              (GeneInfo.mk (lit "G1") 2 6)
  = SpeciesInfo.mk (lit "A") (lit "XXXCX").
Proof. reflexivity. Qed.

Example split_index_line :
  Py.split (lit "charset  G1 = 2 -	5 ;")
  = [lit "charset"; lit "G1"; lit "="; lit "2"; lit "-"; lit "5"; lit ";"].
Proof. reflexivity. Qed.

Example read_scenario :
  readGeneIndexes [lit "charset G1 = 2 - 5 ;" ++ [chNewline];
                   lit "charset G2 = 6 - 10 ;" ++ [chNewline]]
  = Ok [GeneInfo.mk (lit "G1") 2 5; GeneInfo.mk (lit "G2") 6 10].
Proof. reflexivity. Qed.

Example read_short_line :
  readGeneIndexes [lit "charset G1 = 2 - 5 ;"; lit "charset G2 = 6 -"]
  = Raise IndexError.
Proof. reflexivity. Qed.

Example read_bad_number :
  readGeneIndexes [lit "charset G1 = 2 - 5 ;"; lit "charset G2 = x - 7 ;"]
  = Raise ValueError.
Proof. reflexivity. Qed.

(** ** Facts about the built-in string operations *)

Section Builtins.
Variable c : ascii.

Lemma lstrip_decomp (s : str) :
  ∃ k : nat, s = replicate k c ++ Py.lstrip c s.
Proof.
  induction s as [|x s [k IH]]; simpl.
  - by exists 0%nat.
  - destruct (Ascii.eqb_spec x c) as [->|Hne].
    + exists (S k). simpl. by f_equal.
    + by exists 0%nat.
Qed.

Lemma lstrip_length (s : str) : (length (Py.lstrip c s) ≤ length s)%nat.
Proof.
  destruct (lstrip_decomp s) as [k Hk].
  rewrite Hk at 2. rewrite length_app. lia.
Qed.

Lemma lstrip_head (s : str) : head (Py.lstrip c s) ≠ Some c.
Proof.
  induction s as [|x s IH]; simpl; [done|].
  destruct (Ascii.eqb_spec x c) as [->|Hne]; [done|].
  simpl. congruence.
Qed.

Lemma lstrip_id (s : str) : head s ≠ Some c → Py.lstrip c s = s.
Proof.
  destruct s as [|x s]; simpl; [done|].
  intros Hne. destruct (Ascii.eqb_spec x c) as [->|?]; [done|done].
Qed.

Lemma lstrip_replicate (k : nat) : Py.lstrip c (replicate k c) = [].
Proof. induction k as [|k IH]; simpl; [done|]. by rewrite Ascii.eqb_refl. Qed.

Lemma rstrip_cons (x : ascii) (s : str) :
  Py.rstrip c (x :: s) =
    if decide (Py.rstrip c s = [])
    then (if Ascii.eqb x c then [] else [x])
    else x :: Py.rstrip c s.
Proof. simpl. by destruct (Py.rstrip c s). Qed.

Lemma rstrip_decomp (s : str) :
  ∃ k : nat, s = Py.rstrip c s ++ replicate k c.
Proof.
  induction s as [|x s [k IH]].
  - by exists 0%nat.
  - rewrite rstrip_cons. case_decide as Hr.
    + rewrite Hr in IH. simpl in IH.
      destruct (Ascii.eqb_spec x c) as [->|Hne].
      * exists (S k). simpl. by f_equal.
      * exists k. simpl. by f_equal.
    + exists k. simpl. by f_equal.
Qed.

Lemma rstrip_length (s : str) : (length (Py.rstrip c s) ≤ length s)%nat.
Proof.
  destruct (rstrip_decomp s) as [k Hk].
  rewrite Hk at 2. rewrite length_app. lia.
Qed.

Lemma rstrip_last (s : str) : last (Py.rstrip c s) ≠ Some c.
Proof.
  induction s as [|x s IH]; [done|].
  rewrite rstrip_cons. case_decide as Hr.
  - destruct (Ascii.eqb_spec x c) as [->|Hne]; simpl; congruence.
  - rewrite last_cons. destruct (last (Py.rstrip c s)) eqn:Hl; [done|].
    apply last_None in Hl. done.
Qed.

Lemma rstrip_id (s : str) : last s ≠ Some c → Py.rstrip c s = s.
Proof.
  induction s as [|x s IH]; [done|].
  rewrite rstrip_cons, last_cons.
  destruct s as [|y s].
  - intros Hne. cbn in *.
    destruct (Ascii.eqb_spec x c) as [->|?]; done.
  - destruct (last (y :: s)) as [z|] eqn:Hl.
    + intros Hne. rewrite IH by done. by case_decide.
    + by apply last_None in Hl.
Qed.

Lemma rstrip_head (s : str) :
  head s ≠ Some c → head (Py.rstrip c s) = head s.
Proof.
  destruct s as [|x s]; [done|].
  rewrite rstrip_cons. simpl. intros Hne.
  case_decide; [|done].
  destruct (Ascii.eqb_spec x c) as [->|?]; done.
Qed.

Lemma rstrip_replicate (k : nat) : Py.rstrip c (replicate k c) = [].
Proof.
  induction k as [|k IH]; [done|].
  simpl replicate. rewrite rstrip_cons, IH.
  case_decide; [|done]. by rewrite Ascii.eqb_refl.
Qed.

Lemma count_le_len (s : str) : 0 ≤ Py.count c s ≤ Py.len s.
Proof.
  unfold Py.len. induction s as [|x s IH]; simpl; [lia|].
  destruct (Ascii.eqb x c); lia.
Qed.

Lemma count_eq_len (s : str) :
  Py.count c s = Py.len s ↔ Forall (λ x, x = c) s.
Proof.
  induction s as [|x s IH]; simpl.
  - split; [constructor | done].
  - pose proof (count_le_len s) as Hle. unfold Py.len in *. simpl length.
    destruct (Ascii.eqb_spec x c) as [->|Hne].
    + rewrite Forall_cons. split.
      * intros H. split; [done|]. apply IH. lia.
      * intros [_ H]. apply IH in H. lia.
    + split; [lia|]. intros H. by inversion H.
Qed.

End Builtins.

Lemma len_app (s t : str) : Py.len (s ++ t) = Py.len s + Py.len t.
Proof. unfold Py.len. rewrite length_app. lia. Qed.

Lemma len_mul (c : ascii) (n : Z) : Py.len (Py.mul c n) = Z.max 0 n.
Proof. unfold Py.len, Py.mul. rewrite length_replicate. lia. Qed.

Lemma len_replace (a b : ascii) (s : str) :
  Py.len (Py.replace a b s) = Py.len s.
Proof. unfold Py.len, Py.replace. by rewrite length_map. Qed.

Lemma replace_absent (a b : ascii) (s : str) :
  a ∉ s → Py.replace a b s = s.
Proof.
  unfold Py.replace. induction s as [|x s IH]; simpl; [done|].
  rewrite not_elem_of_cons. intros [Hx Hs].
  destruct (Ascii.eqb_spec x a) as [->|_]; [done|]. by rewrite IH.
Qed.

Lemma replace_removes (a b : ascii) (s : str) :
  a ≠ b → a ∉ Py.replace a b s.
Proof.
  intros Hab. unfold Py.replace. rewrite list_elem_of_fmap.
  intros (x & Hx & _).
  destruct (Ascii.eqb x a) eqn:E; [congruence|].
  apply Ascii.eqb_neq in E. congruence.
Qed.

(** ** The slice of [extractGene] *)

Lemma slice_window (species : SpeciesInfo.t) (gidx : GeneInfo.t) :
  1 ≤ GeneInfo.start gidx →
  GeneInfo.start gidx ≤ GeneInfo.end_ gidx →
  Py.slice (SpeciesInfo.sequence species)
           (GeneInfo.start gidx - 1) (GeneInfo.end_ gidx)
  = window species gidx.
Proof.
  intros Hs He. unfold Py.slice, window, genelen, Py.adjust, Py.len.
  set (s := SpeciesInfo.sequence species).
  set (a := GeneInfo.start gidx) in *. set (b := GeneInfo.end_ gidx) in *.
  destruct (Z.ltb_spec (a - 1) 0) as [?|_]; [lia|].
  destruct (Z.ltb_spec b 0) as [?|_]; [lia|].
  destruct (Z_le_gt_dec (a - 1) (Z.of_nat (length s))) as [Hin|Hout].
  - rewrite (Z.min_l (a - 1)) by lia.
    destruct (Z_le_gt_dec b (Z.of_nat (length s))) as [Hb|Hb].
    + rewrite Z.min_l by lia. do 2 f_equal. lia.
    + rewrite Z.min_r by lia.
      rewrite !take_ge; [done| |]; rewrite length_drop; lia.
  - rewrite !Z.min_r by lia.
    rewrite !drop_ge by lia. by rewrite !take_nil.
Qed.

Lemma extractGene_cleanup (species : SpeciesInfo.t) (gidx : GeneInfo.t) :
  1 ≤ GeneInfo.start gidx →
  GeneInfo.start gidx ≤ GeneInfo.end_ gidx →
  extractGene species gidx
  = SpeciesInfo.mk (SpeciesInfo.name species)
                   (cleanup (genelen gidx) (window species gidx)).
Proof.
  intros Hs He. unfold extractGene. by rewrite slice_window.
Qed.

Lemma window_length (species : SpeciesInfo.t) (gidx : GeneInfo.t) :
  Py.len (window species gidx) ≤ Z.max 0 (genelen gidx).
Proof. unfold window, Py.len. rewrite length_take. lia. Qed.

Lemma window_length_within (species : SpeciesInfo.t) (gidx : GeneInfo.t) :
  within species gidx → Py.len (window species gidx) = genelen gidx.
Proof.
  unfold within, window, genelen, Py.len.
  intros (Hs & He & Hl). rewrite length_take, length_drop. lia.
Qed.

(** ** The clean-up steps of [extractGene] *)

Section Cleanup.
Variable L : Z.
Variable w : str.
Hypothesis Hfit : Py.len w ≤ L.

Local Abbreviation u := (seq_lstripped w).
Local Abbreviation v := (seq_left_padded L w).
Local Abbreviation t := (seq_rstripped L w).

Lemma cleanup_unfold : cleanup L w = t ++ Py.mul chX (L - Py.len t).
Proof. reflexivity. Qed.

Lemma cleanup_u_len : Py.len u ≤ L.
Proof.
  pose proof (lstrip_length chDash (Py.replace chQuery chX w)) as H.
  pose proof (len_replace chQuery chX w) as H'.
  unfold seq_lstripped, Py.len in *. lia.
Qed.

Lemma cleanup_v_len : Py.len v = L.
Proof.
  pose proof cleanup_u_len. unfold seq_left_padded. rewrite len_app, len_mul. lia.
Qed.

Lemma cleanup_t_len : Py.len t ≤ L.
Proof.
  pose proof (rstrip_length chDash v) as H. pose proof cleanup_v_len as H'.
  unfold seq_rstripped, Py.len in *. lia.
Qed.

Lemma cleanup_len : Py.len (cleanup L w) = L.
Proof.
  pose proof cleanup_t_len. rewrite cleanup_unfold, len_app, len_mul. lia.
Qed.

Lemma cleanup_no_query : chQuery ∉ cleanup L w.
Proof.
  assert (Hu : chQuery ∉ u).
  { unfold seq_lstripped. destruct (lstrip_decomp chDash (Py.replace chQuery chX w)) as [k Hk].
    intros Hin. apply (replace_removes chQuery chX w); [done|].
    rewrite Hk. apply elem_of_app. by right. }
  assert (Hv : chQuery ∉ v).
  { unfold seq_left_padded, Py.mul. rewrite elem_of_app. intros [Hin|Hin]; [|done].
    by apply elem_of_replicate in Hin as [? _]. }
  assert (Ht : chQuery ∉ t).
  { unfold seq_rstripped. destruct (rstrip_decomp chDash v) as [k Hk].
    intros Hin. apply Hv. rewrite Hk. apply elem_of_app. by left. }
  rewrite cleanup_unfold. unfold Py.mul. rewrite elem_of_app.
  intros [Hin|Hin]; [done|]. by apply elem_of_replicate in Hin as [? _].
Qed.

Lemma cleanup_v_head : 1 ≤ L → ∃ x, head v = Some x ∧ x ≠ chDash.
Proof.
  intros HL. pose proof cleanup_v_len as Hlen.
  destruct v as [|x v'] eqn:Hv; [unfold Py.len in Hlen; simpl in Hlen; lia|].
  exists x. split; [done|]. intros ->.
  unfold seq_left_padded, Py.mul in Hv.
  destruct (Z.to_nat (L - Py.len u)) as [|n] eqn:Hn; simpl in Hv.
  - pose proof (lstrip_head chDash (Py.replace chQuery chX w)) as Hh.
    fold (seq_lstripped w) in Hh. rewrite Hv in Hh. done.
  - done.
Qed.

Lemma cleanup_head : 1 ≤ L → head (cleanup L w) ≠ Some chDash.
Proof.
  intros HL. destruct (cleanup_v_head HL) as (x & Hx & Hne).
  assert (Ht : head t = Some x).
  { unfold seq_rstripped. rewrite rstrip_head; [done|]. rewrite Hx. congruence. }
  rewrite cleanup_unfold. destruct t as [|y t']; [done|].
  simpl in *. congruence.
Qed.

Lemma cleanup_last : 1 ≤ L → last (cleanup L w) ≠ Some chDash.
Proof.
  intros HL. rewrite cleanup_unfold. unfold Py.mul.
  destruct (Z.to_nat (L - Py.len t)) as [|n] eqn:Hn.
  - simpl. rewrite app_nil_r. apply rstrip_last.
  - rewrite replicate_S_end, app_assoc, last_snoc. done.
Qed.

End Cleanup.

Lemma cleanup_fixed (L : Z) (r : str) :
  1 ≤ L → Py.len r = L → chQuery ∉ r →
  head r ≠ Some chDash → last r ≠ Some chDash →
  cleanup L r = r.
Proof.
  intros HL Hlen Hq Hh Hl. unfold cleanup.
  rewrite replace_absent by done.
  rewrite lstrip_id by done.
  rewrite Hlen, Z.sub_diag. simpl.
  rewrite rstrip_id by done.
  rewrite Hlen, Z.sub_diag. simpl. apply app_nil_r.
Qed.

Lemma window_whole (name gname r : str) :
  window (SpeciesInfo.mk name r) (GeneInfo.mk gname 1 (Py.len r)) = r.
Proof.
  unfold window, genelen, Py.len. simpl.
  apply take_ge. lia.
Qed.

(** ** Length of the extracted sequence *)

(** C1: for every gene range with [1 <= start <= end] and every species
    sequence (empty and shorter than the range included), the sequence
    returned by [extractGene] has length exactly [end - start + 1]. *)
Theorem extractGene_length (species : SpeciesInfo.t) (gidx : GeneInfo.t) :
  1 ≤ GeneInfo.start gidx →
  GeneInfo.start gidx ≤ GeneInfo.end_ gidx →
  Py.len (SpeciesInfo.sequence (extractGene species gidx))
  = GeneInfo.end_ gidx - GeneInfo.start gidx + 1.
Proof.
  intros Hs He. rewrite extractGene_cleanup by done. simpl.
  apply cleanup_len. pose proof (window_length species gidx) as H.
  unfold genelen in *. lia.
Qed.

Lemma extractGene_length_witness :
  let species := SpeciesInfo.mk (lit "A") (lit "AC") in
  let gidx := GeneInfo.mk (lit "G1") 2 6 in
  1 ≤ GeneInfo.start gidx ∧
  GeneInfo.start gidx ≤ GeneInfo.end_ gidx ∧
  Py.len (SpeciesInfo.sequence (extractGene species gidx)) = 5.
Proof.
  intros species gidx. split; [|split].
  - simpl. lia.
  - simpl. lia.
  - apply (extractGene_length species gidx); simpl; lia.
Defined.

(** ** Validity *)

Lemma isValidGene_false_iff (gene : SpeciesInfo.t) :
  SpeciesInfo.sequence gene ≠ [] →
  isValidGene gene = false
  ↔ Forall (λ c, c = chX) (SpeciesInfo.sequence gene).
Proof.
  unfold isValidGene.
  destruct (SpeciesInfo.sequence gene) as [|x s] eqn:Hs; [done|]. intros _.
  cbn [Py.startswith].
  destruct (Ascii.eqb_spec x chX) as [->|Hx].
  - destruct (Z.eqb_spec (Py.count chX (chX :: s)) (Py.len (chX :: s))) as [Hc|Hc].
    + split; [|done]. intros _. by apply count_eq_len.
    + split; [done|]. intros HF. by apply count_eq_len in HF.
  - split; [done|]. intros HF. by inversion HF.
Qed.

(** C2: for a gene with a non-empty sequence, [isValidGene] answers
    [False] exactly when every character of the sequence is ['X']; a
    sequence that starts with ['X'] and has some other character is
    valid; and the answer depends on the sequence only. *)
Theorem isValidGene_false_iff_all_X (gene : SpeciesInfo.t) :
  SpeciesInfo.sequence gene ≠ [] →
  (isValidGene gene = false
   ↔ Forall (λ c, c = chX) (SpeciesInfo.sequence gene)) ∧
  (head (SpeciesInfo.sequence gene) = Some chX →
   (∃ c, c ∈ SpeciesInfo.sequence gene ∧ c ≠ chX) →
   isValidGene gene = true) ∧
  (∀ other : SpeciesInfo.t,
     SpeciesInfo.sequence other = SpeciesInfo.sequence gene →
     isValidGene other = isValidGene gene).
Proof.
  intros Hne.
  pose proof (isValidGene_false_iff gene Hne) as Hiff.
  split; [done|]. split.
  - intros _ (c & Hin & Hc).
    apply not_false_iff_true. intros Hv.
    apply Hiff in Hv. rewrite Forall_forall in Hv. by apply Hv in Hin.
  - intros other Heq. unfold isValidGene. by rewrite Heq.
Qed.

Lemma isValidGene_false_iff_all_X_witness :
  let gene := SpeciesInfo.mk (lit "A") (lit "XCGX") in
  SpeciesInfo.sequence gene ≠ [] ∧
  (isValidGene gene = false
   ↔ Forall (λ c, c = chX) (SpeciesInfo.sequence gene)).
Proof.
  intros gene. split.
  - done.
  - apply (isValidGene_false_iff_all_X gene). done.
Defined.

(** C10: a gene whose sequence is the empty string is judged valid,
    whatever its name: the count of ['X'] equals the length, but the
    test is only reached for a sequence that starts with ['X']. *)
Theorem isValidGene_empty_sequence (name : str) :
  isValidGene (SpeciesInfo.mk name []) = true ∧
  Py.startswith chX [] = false ∧
  Py.count chX [] = Py.len [].
Proof. by repeat split. Qed.

(** ** No ['?'] and no edge ['-'] in the result *)

(** C9: for [1 <= start <= end], the returned sequence has no ['?'],
    its first and last characters are not ['-'], so every ['-'] in it
    is strictly inside. *)
Theorem extractGene_no_query_no_edge_dash
    (species : SpeciesInfo.t) (gidx : GeneInfo.t) :
  1 ≤ GeneInfo.start gidx →
  GeneInfo.start gidx ≤ GeneInfo.end_ gidx →
  let r := SpeciesInfo.sequence (extractGene species gidx) in
  (chQuery ∉ r) ∧
  head r ≠ Some chDash ∧
  last r ≠ Some chDash ∧
  ∀ i : nat, r !! i = Some chDash → (0 < i ∧ i + 1 < length r)%nat.
Proof.
  intros Hs He r. subst r. rewrite extractGene_cleanup by done. simpl.
  assert (HL : 1 ≤ genelen gidx) by (unfold genelen; lia).
  assert (Hfit : Py.len (window species gidx) ≤ genelen gidx).
  { pose proof (window_length species gidx). lia. }
  pose proof (cleanup_head _ _ Hfit HL) as Hh.
  pose proof (cleanup_last _ (window species gidx) HL) as Hl.
  split; [apply cleanup_no_query|]. split; [done|]. split; [done|].
  intros i Hi.
  pose proof (lookup_lt_Some _ _ _ Hi) as Hlt.
  rewrite head_lookup in Hh. rewrite last_lookup in Hl.
  split.
  - destruct i; [|lia]. exfalso. by apply Hh.
  - destruct (decide (i = pred (length (cleanup (genelen gidx) (window species gidx)))))
      as [->|Hne]; [|lia]. exfalso. by apply Hl.
Qed.

Lemma extractGene_no_query_no_edge_dash_witness :
  let species := SpeciesInfo.mk (lit "A") (lit "--A-?C--") in
  let gidx := GeneInfo.mk (lit "G1") 2 9 in
  let r := SpeciesInfo.sequence (extractGene species gidx) in
  1 ≤ GeneInfo.start gidx ∧
  GeneInfo.start gidx ≤ GeneInfo.end_ gidx ∧
  (chQuery ∉ r) ∧ head r ≠ Some chDash ∧ last r ≠ Some chDash.
Proof.
  intros species gidx r.
  assert (H1 : 1 ≤ GeneInfo.start gidx) by (simpl; lia).
  assert (H2 : GeneInfo.start gidx ≤ GeneInfo.end_ gidx) by (simpl; lia).
  destruct (extractGene_no_query_no_edge_dash species gidx H1 H2)
    as (Hq & Hh & Hl & _).
  done.
Defined.

(** ** Idempotence *)

(** C4: for [1 <= start <= end], with [r] the returned sequence and
    [L = end - start + 1], extracting the range [1 .. L] from a species
    whose sequence is [r] returns [r] unchanged. *)
Theorem extractGene_idempotent
    (species : SpeciesInfo.t) (gidx : GeneInfo.t) (pname pgene : str) :
  1 ≤ GeneInfo.start gidx →
  GeneInfo.start gidx ≤ GeneInfo.end_ gidx →
  let r := SpeciesInfo.sequence (extractGene species gidx) in
  let L := GeneInfo.end_ gidx - GeneInfo.start gidx + 1 in
  extractGene (SpeciesInfo.mk pname r) (GeneInfo.mk pgene 1 L)
  = SpeciesInfo.mk pname r.
Proof.
  intros Hs He r L.
  assert (HL : 1 ≤ L) by (unfold L; lia).
  assert (Hfit : Py.len (window species gidx) ≤ L).
  { pose proof (window_length species gidx). unfold genelen in *. lia. }
  assert (Hr : r = cleanup L (window species gidx)).
  { unfold r. by rewrite extractGene_cleanup. }
  assert (Hlen : Py.len r = L) by (rewrite Hr; by apply cleanup_len).
  rewrite extractGene_cleanup by (simpl; lia).
  simpl. f_equal.
  replace (genelen (GeneInfo.mk pgene 1 L)) with L by (unfold genelen; simpl; lia).
  rewrite <- Hlen at 2. rewrite window_whole.
  apply cleanup_fixed; [done|done|..]; rewrite Hr.
  - apply cleanup_no_query.
  - by apply cleanup_head.
  - by apply cleanup_last.
Qed.

Lemma extractGene_idempotent_witness :
  let species := SpeciesInfo.mk (lit "A") (lit "--A-?C--") in
  let gidx := GeneInfo.mk (lit "G1") 2 11 in
  1 ≤ GeneInfo.start gidx ∧
  GeneInfo.start gidx ≤ GeneInfo.end_ gidx ∧
  extractGene (SpeciesInfo.mk (lit "A") (SpeciesInfo.sequence (extractGene species gidx)))
              (GeneInfo.mk (lit "G1") 1 10)
  = SpeciesInfo.mk (lit "A") (lit "XXXXA-XCXX").
Proof.
  intros species gidx. split; [|split].
  - simpl. lia.
  - simpl. lia.
  - apply (extractGene_idempotent species gidx (lit "A") (lit "G1")); simpl; lia.
Defined.

(** ** Windows inside the sequence *)

Section Edges.
Variable c : ascii.

Lemma rstrip_app (s t : str) :
  Py.rstrip c (s ++ t) =
    if decide (Py.rstrip c t = []) then Py.rstrip c s else s ++ Py.rstrip c t.
Proof.
  induction s as [|x s IH].
  - simpl. by case_decide.
  - rewrite <- app_comm_cons, !rstrip_cons, IH.
    case_decide as Ht; [done|].
    case_decide as Hs; [|done].
    by destruct s, (Py.rstrip c t).
Qed.

Lemma rstrip_app_replicate (s : str) (k : nat) :
  Py.rstrip c (s ++ replicate k c) = Py.rstrip c s.
Proof. rewrite rstrip_app, rstrip_replicate. by case_decide. Qed.

Lemma lstrip_app_replicate (s : str) (k : nat) :
  Py.lstrip c (replicate k c ++ s) = Py.lstrip c s.
Proof. induction k as [|k IH]; simpl; [done|]. by rewrite Ascii.eqb_refl. Qed.

Lemma leading_app_replicate (s : str) (k : nat) :
  head s ≠ Some c → leading c (replicate k c ++ s) = k.
Proof.
  intros Hh. induction k as [|k IH]; simpl.
  - destruct s as [|x s]; simpl; [done|].
    destruct (Ascii.eqb_spec x c) as [->|?]; done.
  - by rewrite Ascii.eqb_refl, IH.
Qed.

Lemma head_replicate_ne (x : ascii) (k : nat) :
  x ≠ c → head (replicate k x) ≠ Some c.
Proof. intros Hx. destruct k; simpl; congruence. Qed.

Lemma last_replicate_ne (x : ascii) (k : nat) :
  x ≠ c → last (replicate k x) ≠ Some c.
Proof.
  intros Hx. destruct k; [done|].
  rewrite replicate_S_end, last_snoc. congruence.
Qed.

(** A string with a character other than [c] is a run of [c], a
    middle part that neither starts nor ends with [c], and a run of
    [c]. *)
Lemma edges_decomp (s : str) :
  (∃ x, x ∈ s ∧ x ≠ c) →
  ∃ (a b : nat) (m : str),
    s = replicate a c ++ m ++ replicate b c ∧
    m ≠ [] ∧ head m ≠ Some c ∧ last m ≠ Some c.
Proof.
  intros (x & Hin & Hx).
  destruct (lstrip_decomp c s) as [a Ha].
  destruct (rstrip_decomp c (Py.lstrip c s)) as [b Hb].
  set (m := Py.rstrip c (Py.lstrip c s)) in *.
  exists a, b, m. split; [by rewrite <- Hb|].
  assert (Hm : m ≠ []).
  { intros Hm. rewrite Ha, Hb, Hm in Hin.
    rewrite !elem_of_app in Hin.
    destruct Hin as [Hin|[Hin|Hin]].
    - by apply elem_of_replicate in Hin as [? _].
    - by apply elem_of_nil in Hin.
    - by apply elem_of_replicate in Hin as [? _]. }
  split; [done|]. split.
  - unfold m. rewrite rstrip_head; apply lstrip_head.
  - apply rstrip_last.
Qed.

End Edges.

Lemma replace_app (a b : ascii) (s t : str) :
  Py.replace a b (s ++ t) = Py.replace a b s ++ Py.replace a b t.
Proof. apply map_app. Qed.

Lemma replace_replicate (a b x : ascii) (k : nat) :
  Py.replace a b (replicate k x)
  = replicate k (if Ascii.eqb x a then b else x).
Proof. unfold Py.replace. induction k; simpl; by f_equal. Qed.

Lemma replace_head_ne (s : str) :
  head s ≠ Some chDash → head (Py.replace chQuery chX s) ≠ Some chDash.
Proof.
  destruct s as [|x s]; simpl; [done|].
  destruct (Ascii.eqb_spec x chQuery); [done|congruence].
Qed.

Lemma replace_last_ne (s : str) :
  last s ≠ Some chDash → last (Py.replace chQuery chX s) ≠ Some chDash.
Proof.
  assert (E : last (Py.replace chQuery chX s)
              = (λ x, if Ascii.eqb x chQuery then chX else x) <$> last s)
    by apply fmap_last.
  rewrite E.
  destruct (last s) as [x|]; simpl; [|done].
  destruct (Ascii.eqb_spec x chQuery); [done|congruence].
Qed.

(** The clean-up of a window that fills the range and has the shape
    given by [edges_decomp]. *)
Lemma cleanup_decomposed (a b : nat) (m : str) :
  m ≠ [] → head m ≠ Some chDash → last m ≠ Some chDash →
  cleanup (Py.len (replicate a chDash ++ m ++ replicate b chDash))
          (replicate a chDash ++ m ++ replicate b chDash)
  = replicate a chX ++ Py.replace chQuery chX m ++ replicate b chX.
Proof.
  intros Hm Hh Hl. unfold cleanup.
  rewrite !replace_app, !replace_replicate. simpl Ascii.eqb. cbv iota.
  rewrite lstrip_app_replicate.
  set (m' := Py.replace chQuery chX m).
  assert (Hm' : m' ≠ []) by (unfold m', Py.replace; by destruct m).
  assert (Hh' : head m' ≠ Some chDash) by by apply replace_head_ne.
  assert (Hl' : last m' ≠ Some chDash) by by apply replace_last_ne.
  rewrite (lstrip_id chDash (m' ++ _)); [|by destruct m'].
  assert (Hlen : Py.len m' = Py.len m) by apply len_replace.
  replace (Py.mul chX _) with (replicate a chX).
  2:{ unfold Py.mul. f_equal. rewrite !len_app. unfold Py.len in *.
      rewrite !length_replicate. lia. }
  rewrite (app_assoc (replicate a chX)), rstrip_app_replicate.
  rewrite rstrip_id.
  2:{ rewrite last_app. destruct (last m') eqn:E; [done|]. by apply last_None in E. }
  rewrite <- app_assoc. do 2 f_equal.
  unfold Py.mul. f_equal. rewrite !len_app. unfold Py.len in *.
  rewrite !length_replicate. lia.
Qed.

Lemma window_eq_within (species : SpeciesInfo.t) (gidx : GeneInfo.t) :
  within species gidx →
  extractGene species gidx
  = SpeciesInfo.mk (SpeciesInfo.name species)
      (cleanup (Py.len (window species gidx)) (window species gidx)).
Proof.
  intros Hw. rewrite window_length_within by done.
  destruct Hw as (? & ? & ?). by apply extractGene_cleanup.
Qed.

Lemma isValidGene_non_X (gene : SpeciesInfo.t) (x : ascii) :
  x ∈ SpeciesInfo.sequence gene → x ≠ chX → isValidGene gene = true.
Proof.
  intros Hin Hx. unfold isValidGene.
  destruct (Py.startswith chX (SpeciesInfo.sequence gene)); [|done].
  destruct (Z.eqb_spec (Py.count chX (SpeciesInfo.sequence gene))
                       (Py.len (SpeciesInfo.sequence gene))) as [Hc|Hc]; [|done].
  apply count_eq_len in Hc. rewrite Forall_forall in Hc. by apply Hc in Hin.
Qed.

Lemma isValidGene_all_X (name : str) (k : nat) :
  (0 < k)%nat → isValidGene (SpeciesInfo.mk name (replicate k chX)) = false.
Proof.
  intros Hk. unfold isValidGene. simpl.
  destruct k as [|k]; [lia|]. simpl Py.startswith. cbv iota.
  assert (Hc : Py.count chX (replicate (S k) chX) = Py.len (replicate (S k) chX)).
  { apply count_eq_len. by apply Forall_replicate. }
  apply Z.eqb_eq in Hc. by rewrite Hc.
Qed.

Lemma Forall_eq_replicate (c : ascii) (s : str) :
  Forall (λ x, x = c) s → s = replicate (length s) c.
Proof. induction 1 as [|x s -> _ IH]; simpl; [done|]. by f_equal. Qed.

Lemma mul_nonpos (c : ascii) (n : Z) : n ≤ 0 → Py.mul c n = [].
Proof. intros Hn. unfold Py.mul. by replace (Z.to_nat n) with 0%nat by lia. Qed.

Lemma mul_of_nat (c : ascii) (n : Z) (k : nat) :
  n = Z.of_nat k → Py.mul c n = replicate k c.
Proof. intros ->. unfold Py.mul. by rewrite Nat2Z.id. Qed.

Lemma len_replicate (c : ascii) (k : nat) : Py.len (replicate k c) = Z.of_nat k.
Proof. unfold Py.len. by rewrite length_replicate. Qed.

Lemma cleanup_all_dash (n : nat) :
  cleanup (Z.of_nat n) (replicate n chDash) = replicate n chX.
Proof.
  unfold cleanup. rewrite replace_replicate. simpl Ascii.eqb. cbv iota.
  rewrite lstrip_replicate.
  rewrite (mul_of_nat chX _ n) by (unfold Py.len; simpl; lia).
  rewrite app_nil_r.
  rewrite rstrip_id by by apply last_replicate_ne.
  rewrite mul_nonpos by (rewrite len_replicate; lia).
  apply app_nil_r.
Qed.

Lemma cleanup_all_query (n : nat) :
  cleanup (Z.of_nat n) (replicate n chQuery) = replicate n chX.
Proof.
  unfold cleanup. rewrite replace_replicate. simpl Ascii.eqb. cbv iota.
  rewrite lstrip_id by by apply head_replicate_ne.
  rewrite mul_nonpos by (rewrite len_replicate; lia).
  simpl.
  rewrite rstrip_id by by apply last_replicate_ne.
  rewrite mul_nonpos by (rewrite len_replicate; lia).
  apply app_nil_r.
Qed.

(** C6: for a range inside the sequence whose window is all ['-'], or
    all ['?'], [extractGene] returns [end - start + 1] times ['X'] and
    [isValidGene] judges it invalid. *)
Theorem extractGene_all_gap_or_query_invalid
    (species : SpeciesInfo.t) (gidx : GeneInfo.t) :
  within species gidx →
  Forall (λ x, x = chDash) (window species gidx) ∨
  Forall (λ x, x = chQuery) (window species gidx) →
  SpeciesInfo.sequence (extractGene species gidx)
  = replicate (Z.to_nat (GeneInfo.end_ gidx - GeneInfo.start gidx + 1)) chX ∧
  isValidGene (extractGene species gidx) = false.
Proof.
  intros Hw Hall.
  pose proof (window_length_within _ _ Hw) as Hlen.
  rewrite (window_eq_within _ _ Hw).
  assert (Hn : Z.to_nat (GeneInfo.end_ gidx - GeneInfo.start gidx + 1)
               = length (window species gidx)).
  { unfold genelen, Py.len in Hlen. lia. }
  assert (Hpos : (0 < length (window species gidx))%nat).
  { destruct Hw as (? & ? & ?). lia. }
  rewrite Hn. unfold Py.len.
  assert (Hc : cleanup (Z.of_nat (length (window species gidx))) (window species gidx)
               = replicate (length (window species gidx)) chX).
  { destruct Hall as [Hd|Hq].
    - rewrite (Forall_eq_replicate _ _ Hd) at 2. apply cleanup_all_dash.
    - rewrite (Forall_eq_replicate _ _ Hq) at 2. apply cleanup_all_query. }
  rewrite Hc. split; [done|]. by apply isValidGene_all_X.
Qed.

Lemma extractGene_all_gap_or_query_invalid_witness :
  let species := SpeciesInfo.mk (lit "A") (lit "AC---GT") in
  let gidx := GeneInfo.mk (lit "G1") 3 5 in
  within species gidx ∧
  SpeciesInfo.sequence (extractGene species gidx) = lit "XXX" ∧
  isValidGene (extractGene species gidx) = false.
Proof.
  intros species gidx.
  assert (Hw : within species gidx) by (repeat split; simpl; unfold Py.len; simpl; lia).
  split; [exact Hw|].
  apply (extractGene_all_gap_or_query_invalid species gidx Hw).
  left. repeat constructor.
Defined.

(** ** Edge gaps only *)

Section EdgeShape.
Variables (a b : nat) (m : str).
Hypothesis Hm : m ≠ [].
Hypothesis Hh : head m ≠ Some chDash.
Hypothesis Hl : last m ≠ Some chDash.

Local Abbreviation w := (gap_framed a m b).

Lemma shape_leading : leading chDash w = a.
Proof.
  unfold gap_framed. apply leading_app_replicate. by destruct m.
Qed.

Lemma shape_trailing : trailing chDash w = b.
Proof.
  unfold trailing, gap_framed. rewrite !reverse_app, !reverse_replicate, <- app_assoc.
  apply leading_app_replicate.
  rewrite head_app, head_reverse.
  destruct (last m) eqn:E; [done|]. by apply last_None in E.
Qed.

Lemma shape_length : length w = (a + length m + b)%nat.
Proof. unfold gap_framed. rewrite !length_app, !length_replicate. lia. Qed.

Lemma shape_lookup (i : nat) (x : ascii) :
  w !! i = Some x →
  (replicate a chX ++ Py.replace chQuery chX m ++ replicate b chX) !! i
  = Some (if in_edge_gap w i then chX
          else if Ascii.eqb x chQuery then chX else x).
Proof.
  intros Hi. pose proof (lookup_lt_Some _ _ _ Hi) as Hlt.
  unfold in_edge_gap. rewrite shape_leading, shape_trailing.
  rewrite shape_length in *.
  destruct (Nat.ltb_spec i a) as [Ha|Ha]; simpl.
  { rewrite lookup_app_l by (rewrite length_replicate; lia).
    by apply lookup_replicate_2. }
  rewrite lookup_app_r by (rewrite length_replicate; lia).
  rewrite length_replicate.
  unfold gap_framed in Hi. rewrite lookup_app_r in Hi by (rewrite length_replicate; lia).
  rewrite length_replicate in Hi.
  destruct (Nat.leb_spec (a + length m + b - b) i) as [Hb|Hb].
  - rewrite lookup_app_r by (unfold Py.replace; rewrite length_map; lia).
    apply lookup_replicate_2. unfold Py.replace. rewrite length_map. lia.
  - rewrite lookup_app_l by (unfold Py.replace; rewrite length_map; lia).
    rewrite lookup_app_l in Hi by lia.
    unfold Py.replace.
    change (((λ y, if Ascii.eqb y chQuery then chX else y) <$> m) !! (i - a)%nat
            = Some (if Ascii.eqb x chQuery then chX else x)).
    by rewrite list_lookup_fmap, Hi.
Qed.

End EdgeShape.

(** C3, amended: for a range inside the sequence whose window has a
    character that is neither ['-'] nor ['?'], the result has the
    length of the window, is ['X'] at every position of the leading
    and of the trailing run of ['-'] and at every ['?'], and has the
    character of the window at every other position (an inner ['-']
    included).  The result is judged valid exactly when some character
    of the window outside those two runs is neither ['?'] nor ['X'];
    in particular when the window has a character that is none of
    ['-'], ['?'] and ['X']. *)
Theorem extractGene_edge_gaps_only
    (species : SpeciesInfo.t) (gidx : GeneInfo.t) :
  within species gidx →
  (∃ x, x ∈ window species gidx ∧ x ≠ chDash ∧ x ≠ chQuery) →
  let w := window species gidx in
  let r := SpeciesInfo.sequence (extractGene species gidx) in
  length r = length w ∧
  (∀ (i : nat) (x : ascii),
     w !! i = Some x →
     r !! i = Some (if in_edge_gap w i then chX
                    else if Ascii.eqb x chQuery then chX else x)) ∧
  (isValidGene (extractGene species gidx) = true
   ↔ ∃ (i : nat) (x : ascii),
       w !! i = Some x ∧ in_edge_gap w i = false ∧ x ≠ chQuery ∧ x ≠ chX) ∧
  ((∃ x, x ∈ w ∧ x ≠ chDash ∧ x ≠ chQuery ∧ x ≠ chX) →
   isValidGene (extractGene species gidx) = true).
Proof.
  intros Hw (x0 & Hin0 & Hd0 & _) w r.
  assert (Hr : extractGene species gidx = SpeciesInfo.mk (SpeciesInfo.name species) r).
  { reflexivity. }
  destruct (edges_decomp chDash w) as (a & b & m & Hdec & Hm & Hh & Hl).
  { by exists x0. }
  assert (Hshape : r = replicate a chX ++ Py.replace chQuery chX m ++ replicate b chX).
  { unfold r. rewrite (window_eq_within _ _ Hw). simpl. fold w.
    rewrite Hdec. by apply cleanup_decomposed. }
  assert (Hlen : length r = length w).
  { rewrite Hshape, Hdec, !length_app, !length_replicate. unfold Py.replace.
    by rewrite length_map. }
  assert (Hpos : ∀ (i : nat) (x : ascii),
             w !! i = Some x →
             r !! i = Some (if in_edge_gap w i then chX
                            else if Ascii.eqb x chQuery then chX else x)).
  { intros i x Hi. rewrite Hshape. rewrite Hdec in Hi |- *. by apply shape_lookup. }
  assert (Hne : r ≠ []).
  { intros Hnil. rewrite Hnil in Hlen. apply list_elem_of_lookup in Hin0 as [i Hi].
    apply lookup_lt_Some in Hi. fold w in Hi. simpl in Hlen. lia. }
  split; [done|]. split; [done|]. split; [split|].
  - intros Hvalid.
    assert (Hnot : ¬ Forall (λ c, c = chX) r).
    { intros HF. rewrite Hr in Hvalid.
      apply (isValidGene_false_iff (SpeciesInfo.mk (SpeciesInfo.name species) r)) in HF;
        [congruence | done]. }
    apply not_Forall_Exists in Hnot; [|intros y; apply _].
    apply Exists_exists in Hnot as (y & Hy & HyX). simpl in HyX.
    apply list_elem_of_lookup in Hy as [i Hi].
    destruct (lookup_lt_is_Some_2 w i) as [x Hx].
    { rewrite <- Hlen. by apply lookup_lt_Some in Hi. }
    exists i, x. split; [done|].
    rewrite (Hpos i x Hx) in Hi. injection Hi as Hi.
    destruct (in_edge_gap w i); [congruence|]. split; [done|].
    destruct (Ascii.eqb x chQuery) eqn:E; [congruence|].
    apply Ascii.eqb_neq in E. split; congruence.
  - intros (i & x & Hx & Hedge & Hq & HX).
    apply (isValidGene_non_X _ x); [|done]. rewrite Hr. simpl.
    apply list_elem_of_lookup. exists i. rewrite (Hpos i x Hx), Hedge.
    by destruct (Ascii.eqb_spec x chQuery).
  - intros (x & Hin & Hd & Hq & HX).
    apply (isValidGene_non_X _ x); [|done]. rewrite Hr. simpl.
    rewrite Hdec in Hin. unfold gap_framed in Hin.
    rewrite !elem_of_app in Hin. rewrite Hshape, !elem_of_app.
    destruct Hin as [Hin|[Hin|Hin]].
    + by apply elem_of_replicate in Hin as [? _].
    + right. left. unfold Py.replace. apply list_elem_of_fmap.
      exists x. split; [|done].
      destruct (Ascii.eqb_spec x chQuery); done.
    + by apply elem_of_replicate in Hin as [? _].
Qed.

Lemma extractGene_edge_gaps_only_witness :
  let species := SpeciesInfo.mk (lit "A") (lit "T--A-?C--G") in
  let gidx := GeneInfo.mk (lit "G1") 2 9 in
  within species gidx ∧
  SpeciesInfo.sequence (extractGene species gidx) !! 3%nat = Some chDash ∧
  isValidGene (extractGene species gidx) = true.
Proof.
  intros species gidx.
  assert (Hw : within species gidx) by (repeat split; simpl; unfold Py.len; simpl; lia).
  assert (Hx : ∃ x, x ∈ window species gidx ∧ x ≠ chDash ∧ x ≠ chQuery).
  { exists "A"%char. split; [|done]. elem_of_literal. }
  destruct (extractGene_edge_gaps_only species gidx Hw Hx) as (_ & Hpos & _ & Hv).
  split; [exact Hw|]. split.
  - apply (Hpos 3%nat chDash). reflexivity.
  - apply Hv. exists "A"%char. split; [|done]. elem_of_literal.
Defined.

(** C3 as stated fails: the window ["-X-"] has a character that is
    neither ['-'] nor ['?'], and the result ["XXX"] is judged invalid. *)
Lemma extractGene_edge_gaps_only_counterexample :
  let species := SpeciesInfo.mk (lit "A") (lit "-X-") in
  let gidx := GeneInfo.mk (lit "G1") 1 3 in
  within species gidx ∧
  (∃ x, x ∈ window species gidx ∧ x ≠ chDash ∧ x ≠ chQuery) ∧
  extractGene species gidx = SpeciesInfo.mk (lit "A") (lit "XXX") ∧
  isValidGene (extractGene species gidx) = false.
Proof.
  intros species gidx. split; [|split; [|split]].
  - repeat split; simpl; unfold Py.len; simpl; lia.
  - exists "X"%char. split; [|done]. elem_of_literal.
  - reflexivity.
  - reflexivity.
Qed.

(** ** Ranges that run past the end of the sequence *)

(** C8: for [1 <= start <= end] with [end] beyond the sequence, the
    slice is what the sequence has from position [start] on (nothing
    when [start] is beyond it too), shorter than the range, and
    [extractGene] returns the clean-up of that slice, of length
    [end - start + 1]. *)
Theorem extractGene_end_past_sequence
    (species : SpeciesInfo.t) (gidx : GeneInfo.t) :
  1 ≤ GeneInfo.start gidx →
  GeneInfo.start gidx ≤ GeneInfo.end_ gidx →
  Py.len (SpeciesInfo.sequence species) < GeneInfo.end_ gidx →
  let seq := Py.slice (SpeciesInfo.sequence species)
                      (GeneInfo.start gidx - 1) (GeneInfo.end_ gidx) in
  let genelen := GeneInfo.end_ gidx - GeneInfo.start gidx + 1 in
  seq = drop (Z.to_nat (GeneInfo.start gidx - 1)) (SpeciesInfo.sequence species) ∧
  Py.len seq
  = Z.max 0 (Py.len (SpeciesInfo.sequence species) - (GeneInfo.start gidx - 1)) ∧
  Py.len seq < genelen ∧
  extractGene species gidx
  = SpeciesInfo.mk (SpeciesInfo.name species) (cleanup genelen seq) ∧
  Py.len (cleanup genelen seq) = genelen.
Proof.
  intros Hs He Hpast seq L.
  assert (Hseq : seq = drop (Z.to_nat (GeneInfo.start gidx - 1))
                            (SpeciesInfo.sequence species)).
  { unfold seq. rewrite slice_window by done. unfold window, genelen.
    apply take_ge. rewrite length_drop. unfold Py.len in Hpast. lia. }
  assert (Hlen : Py.len seq
                 = Z.max 0 (Py.len (SpeciesInfo.sequence species)
                            - (GeneInfo.start gidx - 1))).
  { rewrite Hseq. unfold Py.len. rewrite length_drop. lia. }
  split; [done|]. split; [done|].
  assert (Hlt : Py.len seq < L) by (unfold L; lia).
  split; [done|]. split; [reflexivity|].
  apply cleanup_len. lia.
Qed.

Lemma extractGene_end_past_sequence_witness :
  let species := SpeciesInfo.mk (lit "A") (lit "AC-") in
  let gidx := GeneInfo.mk (lit "G1") 2 6 in
  1 ≤ GeneInfo.start gidx ∧
  GeneInfo.start gidx ≤ GeneInfo.end_ gidx ∧
  Py.len (SpeciesInfo.sequence species) < GeneInfo.end_ gidx ∧
  Py.slice (SpeciesInfo.sequence species) 1 6 = lit "C-" ∧
  extractGene species gidx = SpeciesInfo.mk (lit "A") (lit "XXXCX").
Proof.
  intros species gidx.
  assert (H1 : 1 ≤ GeneInfo.start gidx) by (simpl; lia).
  assert (H2 : GeneInfo.start gidx ≤ GeneInfo.end_ gidx) by (simpl; lia).
  assert (H3 : Py.len (SpeciesInfo.sequence species) < GeneInfo.end_ gidx)
    by (unfold Py.len; simpl; lia).
  destruct (extractGene_end_past_sequence species gidx H1 H2 H3)
    as (Hseq & _ & _ & Hres & _).
  split; [exact H1|]. split; [exact H2|]. split; [exact H3|].
  split; [exact Hseq | exact Hres].
Defined.

(** ** Aggregation *)

Lemma init_gene_species_lookup (gene_indexes : list GeneInfo.t)
    (m : gmap str (list SpeciesInfo.t)) (k : str) :
  init_gene_species gene_indexes m !! k
  = if bool_decide (k ∈ map GeneInfo.name gene_indexes) then Some [] else m !! k.
Proof.
  revert m. induction gene_indexes as [|g rest IH]; intros m;
    cbn [init_gene_species map].
  - case_bool_decide as H; [by apply elem_of_nil in H | done].
  - rewrite IH. case_bool_decide as H1; case_bool_decide as H2; try done.
    + exfalso. apply H2. by apply elem_of_cons; right.
    + apply elem_of_cons in H2 as [->|?]; [apply lookup_insert_eq | done].
    + rewrite lookup_insert_ne; [done|]. intros <-. apply H2.
      by apply elem_of_cons; left.
Qed.

Lemma valid_genes_named_cons (k : str) (g : GeneInfo.t)
    (rest : list GeneInfo.t) (species : SpeciesInfo.t) :
  valid_genes_named k (g :: rest) species
  = (if bool_decide (GeneInfo.name g = k) && isValidGene (extractGene species g)
     then [extractGene species g] else [])
    ++ valid_genes_named k rest species.
Proof.
  unfold valid_genes_named. simpl.
  destruct (bool_decide (GeneInfo.name g = k)); simpl; [|done].
  by destruct (isValidGene (extractGene species g)).
Qed.

Lemma addSpeciesToGeneArray_lookup (species : SpeciesInfo.t)
    (gene_indexes : list GeneInfo.t) (m : gmap str (list SpeciesInfo.t)) :
  (∀ g, g ∈ gene_indexes → is_Some (m !! GeneInfo.name g)) →
  ∃ m', addSpeciesToGeneArray species gene_indexes m = Ok m' ∧
        ∀ k, m' !! k
             = (λ l, l ++ valid_genes_named k gene_indexes species) <$> m !! k.
Proof.
  revert m. induction gene_indexes as [|g rest IH]; intros m Hkeys.
  - exists m. split; [done|]. intros k. unfold valid_genes_named. simpl.
    destruct (m !! k); simpl; [|done]. by rewrite app_nil_r.
  - simpl. destruct (isValidGene (extractGene species g)) eqn:Hv.
    + destruct (Hkeys g) as [l Hl]; [by apply elem_of_cons; left|].
      unfold append_at. rewrite Hl. simpl.
      destruct (IH (<[GeneInfo.name g := l ++ [extractGene species g]]> m))
        as (m' & Hrun & Hlook).
      { intros g' Hg'. destruct (decide (GeneInfo.name g = GeneInfo.name g')) as [<-|Hne].
        - rewrite lookup_insert_eq. by eexists.
        - rewrite lookup_insert_ne by done. apply Hkeys. by apply elem_of_cons; right. }
      exists m'. split; [done|]. intros k. rewrite Hlook, valid_genes_named_cons, Hv.
      destruct (decide (GeneInfo.name g = k)) as [<-|Hne].
      * rewrite lookup_insert_eq, Hl, bool_decide_eq_true_2 by done. simpl.
        by rewrite <- app_assoc.
      * rewrite lookup_insert_ne by done.
        by rewrite bool_decide_eq_false_2 by done.
    + destruct (IH m) as (m' & Hrun & Hlook).
      { intros g' Hg'. apply Hkeys. by apply elem_of_cons; right. }
      exists m'. split; [done|]. intros k.
      rewrite Hlook, valid_genes_named_cons, Hv, andb_false_r. done.
Qed.

Lemma add_all_species_lookup (species_list : list SpeciesInfo.t)
    (gene_indexes : list GeneInfo.t) (m : gmap str (list SpeciesInfo.t)) :
  (∀ g, g ∈ gene_indexes → is_Some (m !! GeneInfo.name g)) →
  ∃ m', add_all_species species_list gene_indexes m = Ok m' ∧
        ∀ k, m' !! k
             = (λ l, l ++ group_of k species_list gene_indexes) <$> m !! k.
Proof.
  revert m. induction species_list as [|species rest IH]; intros m Hkeys.
  - exists m. split; [done|]. intros k. unfold group_of. simpl.
    destruct (m !! k); simpl; [|done]. by rewrite app_nil_r.
  - simpl.
    destruct (addSpeciesToGeneArray_lookup species gene_indexes m Hkeys)
      as (m1 & Hrun1 & Hlook1).
    rewrite Hrun1. simpl.
    destruct (IH m1) as (m' & Hrun & Hlook).
    { intros g Hg. rewrite Hlook1. destruct (Hkeys g Hg) as [l ->]. by eexists. }
    exists m'. split; [done|]. intros k. rewrite Hlook, Hlook1.
    unfold group_of. simpl.
    destruct (m !! k); simpl; [|done]. by rewrite <- app_assoc.
Qed.

Lemma filter_name_unique (g : GeneInfo.t) (gene_indexes : list GeneInfo.t) :
  NoDup (map GeneInfo.name gene_indexes) → g ∈ gene_indexes →
  List.filter (λ g', bool_decide (GeneInfo.name g' = GeneInfo.name g)) gene_indexes
  = [g].
Proof.
  induction gene_indexes as [|g' rest IH]; simpl.
  - intros _ Hin. by apply elem_of_nil in Hin.
  - rewrite NoDup_cons, elem_of_cons. intros [Hnin Hnd] Hin.
    destruct Hin as [->|Hin].
    + rewrite bool_decide_eq_true_2 by done. f_equal.
      clear IH Hnd. induction rest as [|h rest IH]; simpl; [done|].
      rewrite fmap_cons, not_elem_of_cons in Hnin. destruct Hnin as [Hne Hnin].
      rewrite bool_decide_eq_false_2 by done. by apply IH.
    + rewrite bool_decide_eq_false_2; [by apply IH|].
      intros Heq. apply Hnin. rewrite Heq.
      apply list_elem_of_fmap. by exists g.
Qed.

Lemma group_of_unique (g : GeneInfo.t) (species_list : list SpeciesInfo.t)
    (gene_indexes : list GeneInfo.t) :
  NoDup (map GeneInfo.name gene_indexes) → g ∈ gene_indexes →
  group_of (GeneInfo.name g) species_list gene_indexes
  = List.filter isValidGene (map (λ species, extractGene species g) species_list).
Proof.
  intros Hnd Hin. unfold group_of, valid_genes_named.
  rewrite filter_name_unique by done. simpl.
  induction species_list as [|species rest IH]; simpl; [done|].
  rewrite IH. by destruct (isValidGene (extractGene species g)).
Qed.

(** C5: for every list of species and every list of gene ranges, the
    aggregation ends without error in a dictionary whose keys are
    exactly the gene names of the index; the group of a name holds the
    valid [extractGene] results of the ranges of that name, species
    after species in the order of the species list, and is [[]] when
    there is none; with distinct gene names the group of a range is
    the list of its valid results over the species list. *)
Theorem processFastaFile_groups
    (species_list : list SpeciesInfo.t) (gene_indexes : list GeneInfo.t) :
  ∃ gene_species : gmap str (list SpeciesInfo.t),
    processFastaFile species_list gene_indexes = Ok gene_species ∧
    dom gene_species = list_to_set (map GeneInfo.name gene_indexes) ∧
    (∀ k, k ∈ map GeneInfo.name gene_indexes →
          gene_species !! k = Some (group_of k species_list gene_indexes)) ∧
    (NoDup (map GeneInfo.name gene_indexes) →
     ∀ g, g ∈ gene_indexes →
          gene_species !! GeneInfo.name g
          = Some (List.filter isValidGene
                    (map (λ species, extractGene species g) species_list))).
Proof.
  unfold processFastaFile.
  destruct (add_all_species_lookup species_list gene_indexes
              (init_gene_species gene_indexes ∅)) as (m & Hrun & Hlook).
  { intros g Hg. rewrite init_gene_species_lookup.
    rewrite bool_decide_eq_true_2; [by eexists|].
    apply list_elem_of_fmap. by exists g. }
  assert (Hkey : ∀ k, m !! k
                      = if bool_decide (k ∈ map GeneInfo.name gene_indexes)
                        then Some (group_of k species_list gene_indexes)
                        else None).
  { intros k. rewrite Hlook, init_gene_species_lookup.
    case_bool_decide; [done|]. by rewrite lookup_empty. }
  exists m. split; [done|]. split; [|split].
  - apply set_eq. intros k.
    rewrite elem_of_dom, elem_of_list_to_set, Hkey.
    case_bool_decide as Hin.
    + split; [done | by eexists].
    + split; [by intros [? ?] | done].
  - intros k Hin. by rewrite Hkey, bool_decide_eq_true_2.
  - intros Hnd g Hin. rewrite Hkey, bool_decide_eq_true_2.
    + by rewrite group_of_unique.
    + apply list_elem_of_fmap. by exists g.
Qed.

Lemma processFastaFile_groups_witness :
  let species_list := [SpeciesInfo.mk (lit "A") (lit "AC-?");
                       SpeciesInfo.mk (lit "B") (lit "--GT");
                       SpeciesInfo.mk (lit "C") (lit "TTX-")] in
  let g1 := GeneInfo.mk (lit "G1") 1 2 in
  let g2 := GeneInfo.mk (lit "G2") 3 4 in
  NoDup (map GeneInfo.name [g1; g2]) ∧
  group_in (processFastaFile species_list [g1; g2]) (lit "G1")
  = Some [SpeciesInfo.mk (lit "A") (lit "AC"); SpeciesInfo.mk (lit "C") (lit "TT")] ∧
  group_in (processFastaFile species_list [g1; g2]) (lit "G2")
  = Some [SpeciesInfo.mk (lit "B") (lit "GT")].
Proof.
  intros species_list g1 g2.
  assert (Hnd : NoDup (map GeneInfo.name [g1; g2])).
  { apply NoDup_cons. split; [|apply NoDup_singleton].
    rewrite list_elem_of_singleton. done. }
  destruct (processFastaFile_groups species_list [g1; g2])
    as (m & Hrun & _ & _ & Huniq).
  split; [exact Hnd|]. rewrite Hrun. simpl group_in. split.
  - apply (Huniq Hnd g1). by apply elem_of_cons; left.
  - apply (Huniq Hnd g2). apply elem_of_cons; right. by apply elem_of_cons; left.
Defined.

Example processFastaFile_no_valid_species :
  group_in (processFastaFile [SpeciesInfo.mk (lit "A") (lit "--AC")]
                             [GeneInfo.mk (lit "G1") 1 2; GeneInfo.mk (lit "G2") 3 4])
           (lit "G1")
  = Some [].
Proof. vm_compute. reflexivity. Qed.

Example processFastaFile_shared_name :
  group_in (processFastaFile [SpeciesInfo.mk (lit "A") (lit "ACGT");
                              SpeciesInfo.mk (lit "B") (lit "TTXX")]
                             [GeneInfo.mk (lit "G") 1 2; GeneInfo.mk (lit "G") 3 4])
           (lit "G")
  = Some [SpeciesInfo.mk (lit "A") (lit "AC"); SpeciesInfo.mk (lit "A") (lit "GT");
          SpeciesInfo.mk (lit "B") (lit "TT")].
Proof. vm_compute. reflexivity. Qed.

(** ** The index parser *)

Lemma int_raises_ValueError (s : str) (e : exn) :
  Py.int s = Raise e → e = ValueError.
Proof.
  unfold Py.int.
  destruct (match s with
            | "-"%char :: r => (-1, r)
            | "+"%char :: r => (1, r)
            | _ => (1, s)
            end) as [sign body].
  destruct body as [|x body]; [congruence|].
  destruct (Py.digits 0 (x :: body)); congruence.
Qed.

Lemma parse_index_line_fields (line : str) (f1 f3 f5 : str) :
  let fields := Py.split (Py.rstrip chNewline line) in
  fields !! 1%nat = Some f1 → fields !! 3%nat = Some f3 →
  fields !! 5%nat = Some f5 →
  parse_index_line line
  = (let* gstart := Py.int f3 in
     let* gend := Py.int f5 in
     Ok (GeneInfo.mk f1 gstart gend)).
Proof.
  intros fields H1 H3 H5. unfold parse_index_line, Py.getitem.
  fold fields. by rewrite H1, H3, H5.
Qed.

Lemma parse_index_line_short (line : str) :
  (length (Py.split (Py.rstrip chNewline line)) < 6)%nat →
  ∃ e, parse_index_line line = Raise e ∧ (e = IndexError ∨ e = ValueError).
Proof.
  intros Hlen. unfold parse_index_line, Py.getitem.
  set (fields := Py.split (Py.rstrip chNewline line)) in *.
  assert (H5 : fields !! 5%nat = None) by (apply lookup_ge_None; lia).
  destruct (fields !! 1%nat) as [f1|]; simpl; [|by eauto].
  destruct (fields !! 3%nat) as [f3|]; simpl; [|by eauto].
  destruct (Py.int f3) as [gstart|e] eqn:Hint; simpl.
  - rewrite H5. simpl. by eauto.
  - apply int_raises_ValueError in Hint as ->. by eauto.
Qed.

Lemma rejected_raises (line : str) :
  rejected line →
  ∃ e, parse_index_line line = Raise e ∧ (e = IndexError ∨ e = ValueError).
Proof.
  unfold rejected.
  set (fields := Py.split (Py.rstrip chNewline line)).
  destruct (decide (length fields < 6)%nat) as [Hshort|Hlong].
  { intros _. by apply parse_index_line_short. }
  intros Hrej.
  destruct (lookup_lt_is_Some_2 fields 1%nat) as [f1 H1]; [lia|].
  destruct (lookup_lt_is_Some_2 fields 3%nat) as [f3 H3]; [lia|].
  destruct (lookup_lt_is_Some_2 fields 5%nat) as [f5 H5]; [lia|].
  rewrite (parse_index_line_fields line f1 f3 f5 H1 H3 H5).
  exists ValueError. split; [|by right].
  destruct Hrej as [?|[(f & Hf & Hint)|(f & Hf & Hint)]]; [lia| |].
  - fold fields in Hf. rewrite H3 in Hf. injection Hf as <-. by rewrite Hint.
  - fold fields in Hf. rewrite H5 in Hf. injection Hf as <-. rewrite Hint.
    destruct (Py.int f3) as [?|e] eqn:Hint3; [done|].
    by apply int_raises_ValueError in Hint3 as ->.
Qed.

Lemma not_rejected_parses (line : str) :
  ¬ rejected line → ∃ g, parse_index_line line = Ok g.
Proof.
  unfold rejected.
  set (fields := Py.split (Py.rstrip chNewline line)).
  intros Hacc.
  assert (Hlen : (6 ≤ length fields)%nat).
  { destruct (decide (length fields < 6)%nat); [|lia]. exfalso. apply Hacc. by left. }
  destruct (lookup_lt_is_Some_2 fields 1%nat) as [f1 H1]; [lia|].
  destruct (lookup_lt_is_Some_2 fields 3%nat) as [f3 H3]; [lia|].
  destruct (lookup_lt_is_Some_2 fields 5%nat) as [f5 H5]; [lia|].
  rewrite (parse_index_line_fields line f1 f3 f5 H1 H3 H5).
  destruct (Py.int f3) as [gstart|e3] eqn:Hint3.
  - destruct (Py.int f5) as [gend|e5] eqn:Hint5.
    + by eexists.
    + exfalso. apply Hacc. right. right. exists f5. split; [done|].
      by pose proof (int_raises_ValueError _ _ Hint5) as ->.
  - exfalso. apply Hacc. right. left. exists f3. split; [done|].
    by pose proof (int_raises_ValueError _ _ Hint3) as ->.
Qed.

Lemma readGeneIndexes_loop_accepted (lines : list str) (acc : list GeneInfo.t) :
  Forall (λ l, ¬ rejected l) lines →
  ∃ gl, readGeneIndexes_loop lines acc = Ok (acc ++ gl) ∧
        Forall2 (λ l g, parse_index_line l = Ok g) lines gl.
Proof.
  intros Hall. revert acc.
  induction Hall as [|line rest Hline _ IH]; intros acc.
  - exists []. simpl. by rewrite app_nil_r.
  - destruct (not_rejected_parses line Hline) as [g Hg].
    destruct (IH (acc ++ [g])) as (gl & Hrun & Hpar).
    exists (g :: gl). simpl. rewrite Hg. simpl. rewrite Hrun.
    split; [by rewrite <- app_assoc|]. by constructor.
Qed.

Lemma readGeneIndexes_loop_rejected
    (good : list str) (bad : str) (rest : list str)
    (acc : list GeneInfo.t) (e : exn) :
  Forall (λ l, ¬ rejected l) good →
  parse_index_line bad = Raise e →
  readGeneIndexes_loop (good ++ bad :: rest) acc = Raise e.
Proof.
  intros Hall Hbad. revert acc.
  induction Hall as [|line good' Hline _ IH]; intros acc; simpl.
  - by rewrite Hbad.
  - destruct (not_rejected_parses line Hline) as [g ->]. simpl. apply IH.
Qed.

(** C7, amended: [readGeneIndexes] stops at the first line that has
    fewer than six tokens or whose token 3 or token 5 is refused by
    [int]: the error of that line ([IndexError] or [ValueError]) is the
    outcome whatever follows, and no gene list is returned.  The lines
    before it, which have six tokens or more with integer tokens 3 and
    5, are parsed whatever their token count and other tokens are. *)
Theorem readGeneIndexes_first_rejected_line
    (good : list str) (bad : str) (rest : list str) :
  Forall (λ l, ¬ rejected l) good →
  rejected bad →
  (∃ e, (e = IndexError ∨ e = ValueError) ∧
        parse_index_line bad = Raise e ∧
        readGeneIndexes (good ++ bad :: rest) = Raise e) ∧
  (∃ gl, readGeneIndexes good = Ok gl ∧
         Forall2 (λ l g, parse_index_line l = Ok g) good gl).
Proof.
  intros Hgood Hbad. split.
  - destruct (rejected_raises bad Hbad) as (e & He & Hkind).
    exists e. split; [done|]. split; [done|].
    by apply readGeneIndexes_loop_rejected.
  - destruct (readGeneIndexes_loop_accepted good [] Hgood) as (gl & Hrun & Hpar).
    by exists gl.
Qed.

Lemma parses_not_rejected (line : str) (g : GeneInfo.t) :
  parse_index_line line = Ok g → ¬ rejected line.
Proof.
  intros Hok Hrej. destruct (rejected_raises line Hrej) as (e & He & _).
  congruence.
Qed.

Lemma readGeneIndexes_first_rejected_line_witness :
  let good := [lit "charset G1 = 2 - 5 ;" ++ [chNewline];
               lit "charset G2 = 6 - 10 ; and more" ++ [chNewline]] in
  let bad := lit "charset G3 = x - 12 ;" ++ [chNewline] in
  let rest := [lit "charset G4 = 13 - 20 ;" ++ [chNewline]] in
  Forall (λ l, ¬ rejected l) good ∧
  rejected bad ∧
  (∃ e, (e = IndexError ∨ e = ValueError) ∧
        parse_index_line bad = Raise e ∧
        readGeneIndexes (good ++ bad :: rest) = Raise e) ∧
  (∃ gl, readGeneIndexes good = Ok gl ∧
         Forall2 (λ l g, parse_index_line l = Ok g) good gl).
Proof.
  intros good bad rest.
  assert (Hgood : Forall (λ l, ¬ rejected l) good).
  { repeat constructor.
    - apply (parses_not_rejected _ (GeneInfo.mk (lit "G1") 2 5)). reflexivity.
    - apply (parses_not_rejected _ (GeneInfo.mk (lit "G2") 6 10)). reflexivity. }
  assert (Hbad : rejected bad).
  { right. left. exists (lit "x"). split; reflexivity. }
  split; [exact Hgood|]. split; [exact Hbad|].
  exact (readGeneIndexes_first_rejected_line good bad rest Hgood Hbad).
Defined.

(** C7 as stated fails: a line without the closing [;] has six tokens
    instead of seven, a line with more text after the [;] has ten, and
    both are parsed. *)
Lemma readGeneIndexes_token_count_counterexample :
  let short := lit "charset G1 = 2 - 5" in
  let long := lit "charset G2 = 6 - 10 ; and more text" in
  length (Py.split short) ≠ 7%nat ∧
  length (Py.split long) ≠ 7%nat ∧
  readGeneIndexes [short; long]
  = Ok [GeneInfo.mk (lit "G1") 2 5; GeneInfo.mk (lit "G2") 6 10].
Proof.
  intros short long. split; [|split].
  - vm_compute. lia.
  - vm_compute. lia.
  - reflexivity.
Qed.

Example int_literals :
  (Py.int (lit "+5"), Py.int (lit "-12"), Py.int (lit "007"),
   Py.int (lit "1.5"), Py.int (lit "-"), Py.int (lit ""))
  = (Ok 5, Ok (-12), Ok 7,
     Raise ValueError, Raise ValueError, Raise ValueError).
Proof. reflexivity. Qed.

Example inner_gap_between_X_is_valid :
  let gene := extractGene (SpeciesInfo.mk (lit "A") (lit "-?-X-"))
                          (GeneInfo.mk (lit "G1") 1 5) in
  gene = SpeciesInfo.mk (lit "A") (lit "XX-XX") ∧ isValidGene gene = true.
Proof. by split. Qed.

(** * Further properties of the extraction *)

Lemma slice_subseteq (s : str) (a b : Z) : Py.slice s a b ⊆ s.
Proof.
  unfold Py.slice. etrans; [apply subseteq_take | apply subseteq_drop].
Qed.

Lemma slice_length_le (s : str) (a b : Z) :
  a < b → Py.len (Py.slice s a b) ≤ b - a.
Proof.
  intros Hab. unfold Py.slice, Py.adjust, Py.len.
  rewrite length_take, length_drop.
  destruct (Z.ltb_spec a 0), (Z.ltb_spec b 0); lia.
Qed.

Lemma slice_crossed (s : str) (a b : Z) :
  0 ≤ b → b ≤ a → Py.slice s a b = [].
Proof.
  intros Hb Hba. unfold Py.slice, Py.adjust.
  destruct (Z.ltb_spec a 0), (Z.ltb_spec b 0); try lia.
  replace (Z.to_nat (Z.min b (Py.len s) - Z.min a (Py.len s))) with 0%nat by lia.
  done.
Qed.

Lemma extractGene_slice (species : SpeciesInfo.t) (gidx : GeneInfo.t) :
  extractGene species gidx
  = SpeciesInfo.mk (SpeciesInfo.name species)
      (cleanup (genelen gidx)
         (Py.slice (SpeciesInfo.sequence species)
                   (GeneInfo.start gidx - 1) (GeneInfo.end_ gidx))).
Proof. reflexivity. Qed.

Lemma rstrip_replicate_ne (c x : ascii) (k : nat) :
  x ≠ c → Py.rstrip c (replicate k x) = replicate k x.
Proof. intros Hx. apply rstrip_id. by apply last_replicate_ne. Qed.

Lemma cleanup_nil (L : Z) : cleanup L [] = replicate (Z.to_nat L) chX.
Proof.
  unfold cleanup. simpl Py.replace. simpl Py.lstrip.
  replace (L - Py.len []) with L by (unfold Py.len; simpl; lia).
  rewrite app_nil_r. unfold Py.mul at 1 3.
  rewrite rstrip_replicate_ne by done.
  rewrite mul_nonpos by (rewrite len_replicate; lia).
  apply app_nil_r.
Qed.

(** The clean-up in one piece: ['X'] for the stripped leading run and
    for everything the slice lacks, the core of the slice, ['X'] for the
    stripped trailing run. *)
Lemma cleanup_closed_form (L : Z) (w : str) :
  Py.len w ≤ L →
  cleanup L w
  = replicate (Z.to_nat (L - Py.len (seq_lstripped w))) chX
    ++ Py.rstrip chDash (seq_lstripped w)
    ++ replicate (length (seq_lstripped w)
                  - length (Py.rstrip chDash (seq_lstripped w))) chX.
Proof.
  intros Hfit. pose proof (cleanup_u_len L w Hfit) as Hu.
  pose proof (rstrip_length chDash (seq_lstripped w)) as Hr.
  unfold cleanup. fold (seq_lstripped w).
  set (u := seq_lstripped w) in *.
  assert (Ht : Py.rstrip chDash (Py.mul chX (L - Py.len u) ++ u)
               = Py.mul chX (L - Py.len u) ++ Py.rstrip chDash u).
  { rewrite rstrip_app. case_decide as Hnil; [|done].
    rewrite Hnil, app_nil_r. unfold Py.mul. by apply rstrip_replicate_ne. }
  rewrite Ht, <- app_assoc. unfold Py.mul at 1. do 2 f_equal.
  unfold Py.mul. f_equal. rewrite len_app, len_replicate. unfold Py.len in *. lia.
Qed.

(** A window framed by gaps, in a range that may run past the end of the
    sequence: the ['X'] that make up for the missing characters all go
    to the front. *)
Lemma cleanup_gap_framed (L : Z) (a b : nat) (m : str) :
  Py.len (gap_framed a m b) ≤ L →
  m ≠ [] → head m ≠ Some chDash → last m ≠ Some chDash →
  cleanup L (gap_framed a m b)
  = replicate (Z.to_nat (L - Py.len (gap_framed a m b)) + a) chX
    ++ Py.replace chQuery chX m ++ replicate b chX.
Proof.
  intros Hfit Hm Hh Hl. rewrite cleanup_closed_form by done.
  set (m' := Py.replace chQuery chX m).
  assert (Hm' : m' ≠ []) by (unfold m', Py.replace; by destruct m).
  assert (Hh' : head m' ≠ Some chDash) by by apply replace_head_ne.
  assert (Hl' : last m' ≠ Some chDash) by by apply replace_last_ne.
  assert (Hlen : length m' = length m) by apply length_map.
  assert (Hu : seq_lstripped (gap_framed a m b) = m' ++ replicate b chDash).
  { unfold seq_lstripped, gap_framed.
    rewrite !replace_app, !replace_replicate. simpl Ascii.eqb. cbv iota.
    rewrite lstrip_app_replicate. apply lstrip_id. by destruct m'. }
  rewrite Hu, rstrip_app_replicate, rstrip_id by done.
  unfold Py.len in *. unfold gap_framed in *.
  rewrite !length_app, !length_replicate in *.
  f_equal; [f_equal; lia|]. do 2 f_equal. lia.
Qed.

Lemma cleanup_characters (L : Z) (w : str) (c : ascii) :
  c ∈ cleanup L w → c = chX ∨ (c ∈ w ∧ c ≠ chQuery).
Proof.
  unfold cleanup.
  set (rw := Py.replace chQuery chX w).
  set (u := Py.lstrip chDash rw).
  set (v := Py.mul chX (L - Py.len u) ++ u).
  rewrite elem_of_app. intros [Hin|Hin].
  2:{ left. unfold Py.mul in Hin. by apply elem_of_replicate in Hin as [? _]. }
  destruct (rstrip_decomp chDash v) as [j Hj].
  assert (Hv : c ∈ v) by (rewrite Hj; apply elem_of_app; by left).
  unfold v in Hv. apply elem_of_app in Hv as [Hv|Hv].
  { left. unfold Py.mul in Hv. by apply elem_of_replicate in Hv as [? _]. }
  destruct (lstrip_decomp chDash rw) as [k Hk].
  assert (Hrw : c ∈ rw) by (rewrite Hk; apply elem_of_app; by right).
  unfold rw, Py.replace in Hrw. apply list_elem_of_fmap in Hrw as (y & Hy & Hyw).
  destruct (Ascii.eqb y chQuery) eqn:E; [by left|].
  apply Ascii.eqb_neq in E. right. by subst c.
Qed.

Lemma cleanup_keeps_informative (L : Z) (w : str) (c : ascii) :
  Py.len w ≤ L →
  c ∈ w → c ≠ chDash → c ≠ chQuery → c ∈ cleanup L w.
Proof.
  intros Hfit Hin Hd Hq. rewrite cleanup_closed_form by done.
  apply elem_of_app. right. apply elem_of_app. left.
  assert (Hrw : c ∈ Py.replace chQuery chX w).
  { unfold Py.replace. apply list_elem_of_fmap. exists c. split; [|done].
    by destruct (Ascii.eqb_spec c chQuery). }
  destruct (lstrip_decomp chDash (Py.replace chQuery chX w)) as [k Hk].
  fold (seq_lstripped w) in Hk. rewrite Hk in Hrw.
  apply elem_of_app in Hrw as [Hrw|Hu].
  { by apply elem_of_replicate in Hrw as [? _]. }
  destruct (rstrip_decomp chDash (seq_lstripped w)) as [j Hj].
  rewrite Hj in Hu. apply elem_of_app in Hu as [Hu|Hu]; [done|].
  by apply elem_of_replicate in Hu as [? _].
Qed.

Lemma slice_fits (species : SpeciesInfo.t) (gidx : GeneInfo.t) :
  GeneInfo.start gidx ≤ GeneInfo.end_ gidx →
  Py.len (Py.slice (SpeciesInfo.sequence species)
                   (GeneInfo.start gidx - 1) (GeneInfo.end_ gidx))
  ≤ genelen gidx.
Proof.
  intros Hse.
  pose proof (slice_length_le (SpeciesInfo.sequence species)
                (GeneInfo.start gidx - 1) (GeneInfo.end_ gidx)) as H.
  unfold genelen. lia.
Qed.

(** X1: for every [start <= end], a zero or negative [start] included,
    the returned sequence has [end - start + 1] characters. *)
Theorem extractGene_length_any_start
    (species : SpeciesInfo.t) (gidx : GeneInfo.t) :
  GeneInfo.start gidx ≤ GeneInfo.end_ gidx →
  Py.len (SpeciesInfo.sequence (extractGene species gidx))
  = GeneInfo.end_ gidx - GeneInfo.start gidx + 1.
Proof.
  intros Hse. rewrite extractGene_slice. simpl.
  apply cleanup_len. by apply slice_fits.
Qed.

Lemma extractGene_length_any_start_witness :
  let species := SpeciesInfo.mk (lit "A") (lit "ACGT") in
  let gidx := GeneInfo.mk (lit "G1") (-2) 3 in
  GeneInfo.start gidx ≤ GeneInfo.end_ gidx ∧
  Py.len (SpeciesInfo.sequence (extractGene species gidx)) = 6.
Proof.
  intros species gidx. split.
  - simpl. lia.
  - apply (extractGene_length_any_start species gidx). simpl. lia.
Defined.

(** X2: for [1 <= start <= end], when the part of the range that the
    sequence has is a run of ['-'], a middle part that neither starts
    nor ends with ['-'], and a run of ['-'], the result is ['X'] for the
    leading run and for every position the sequence lacks, then the
    middle part with ['?'] turned into ['X'], then ['X'] for the
    trailing run: what a range past the end of the sequence lacks is
    made up in front, not behind. *)
Theorem extractGene_shortfall_in_front
    (species : SpeciesInfo.t) (gidx : GeneInfo.t) (a b : nat) (m : str) :
  1 ≤ GeneInfo.start gidx →
  GeneInfo.start gidx ≤ GeneInfo.end_ gidx →
  window species gidx = gap_framed a m b →
  m ≠ [] → head m ≠ Some chDash → last m ≠ Some chDash →
  SpeciesInfo.sequence (extractGene species gidx)
  = replicate (Z.to_nat (genelen gidx - Py.len (window species gidx)) + a) chX
    ++ Py.replace chQuery chX m ++ replicate b chX.
Proof.
  intros Hs He Hw Hm Hh Hl. rewrite extractGene_cleanup by done. simpl.
  pose proof (window_length species gidx) as Hfit.
  assert (HL : 1 ≤ genelen gidx) by (unfold genelen; lia).
  rewrite Hw in *. apply cleanup_gap_framed; [lia|done..].
Qed.

Lemma extractGene_shortfall_in_front_witness :
  let species := SpeciesInfo.mk (lit "A") (lit "TAC-") in
  let gidx := GeneInfo.mk (lit "G1") 2 7 in
  1 ≤ GeneInfo.start gidx ∧
  GeneInfo.start gidx ≤ GeneInfo.end_ gidx ∧
  window species gidx = gap_framed 0 (lit "AC") 1 ∧
  SpeciesInfo.sequence (extractGene species gidx) = lit "XXXACX".
Proof.
  intros species gidx.
  assert (H1 : 1 ≤ GeneInfo.start gidx) by (simpl; lia).
  assert (H2 : GeneInfo.start gidx ≤ GeneInfo.end_ gidx) by (simpl; lia).
  assert (H3 : window species gidx = gap_framed 0 (lit "AC") 1) by reflexivity.
  split; [exact H1|]. split; [exact H2|]. split; [exact H3|].
  apply (extractGene_shortfall_in_front species gidx 0 1 (lit "AC") H1 H2 H3);
    done.
Defined.

(** X3: for [1 <= start <= end] with [start] beyond the end of the
    sequence (the empty sequence included), the result is
    [end - start + 1] times ['X'] and is judged invalid. *)
Theorem extractGene_start_past_sequence
    (species : SpeciesInfo.t) (gidx : GeneInfo.t) :
  1 ≤ GeneInfo.start gidx →
  GeneInfo.start gidx ≤ GeneInfo.end_ gidx →
  Py.len (SpeciesInfo.sequence species) < GeneInfo.start gidx →
  SpeciesInfo.sequence (extractGene species gidx)
  = replicate (Z.to_nat (GeneInfo.end_ gidx - GeneInfo.start gidx + 1)) chX ∧
  isValidGene (extractGene species gidx) = false.
Proof.
  intros Hs He Hpast. rewrite extractGene_cleanup by done.
  assert (Hw : window species gidx = []).
  { unfold window. rewrite drop_ge; [by rewrite take_nil|].
    unfold Py.len in Hpast. lia. }
  rewrite Hw, cleanup_nil. unfold genelen. split; [done|].
  apply isValidGene_all_X. lia.
Qed.

Lemma extractGene_start_past_sequence_witness :
  let species := SpeciesInfo.mk (lit "A") (lit "") in
  let gidx := GeneInfo.mk (lit "G1") 1 3 in
  1 ≤ GeneInfo.start gidx ∧
  GeneInfo.start gidx ≤ GeneInfo.end_ gidx ∧
  Py.len (SpeciesInfo.sequence species) < GeneInfo.start gidx ∧
  SpeciesInfo.sequence (extractGene species gidx) = lit "XXX" ∧
  isValidGene (extractGene species gidx) = false.
Proof.
  intros species gidx.
  assert (H1 : 1 ≤ GeneInfo.start gidx) by (simpl; lia).
  assert (H2 : GeneInfo.start gidx ≤ GeneInfo.end_ gidx) by (simpl; lia).
  assert (H3 : Py.len (SpeciesInfo.sequence species) < GeneInfo.start gidx)
    by (unfold Py.len; simpl; lia).
  split; [exact H1|]. split; [exact H2|]. split; [exact H3|].
  exact (extractGene_start_past_sequence species gidx H1 H2 H3).
Defined.

(** X4: for a range written backwards, [1 <= start] and
    [0 <= end < start], the result is the empty sequence, and
    [isValidGene] accepts it: the species enters the group of the gene
    with an empty sequence. *)
Theorem extractGene_inverted_range
    (species : SpeciesInfo.t) (gidx : GeneInfo.t) :
  1 ≤ GeneInfo.start gidx →
  0 ≤ GeneInfo.end_ gidx →
  GeneInfo.end_ gidx < GeneInfo.start gidx →
  extractGene species gidx = SpeciesInfo.mk (SpeciesInfo.name species) [] ∧
  isValidGene (extractGene species gidx) = true.
Proof.
  intros Hs He Hinv. rewrite extractGene_slice.
  rewrite slice_crossed by lia. rewrite cleanup_nil.
  unfold genelen. replace (Z.to_nat _) with 0%nat by lia. done.
Qed.

Lemma extractGene_inverted_range_witness :
  let species := SpeciesInfo.mk (lit "A") (lit "ACGT") in
  let gidx := GeneInfo.mk (lit "G1") 3 1 in
  1 ≤ GeneInfo.start gidx ∧
  0 ≤ GeneInfo.end_ gidx ∧
  GeneInfo.end_ gidx < GeneInfo.start gidx ∧
  extractGene species gidx = SpeciesInfo.mk (lit "A") [] ∧
  isValidGene (extractGene species gidx) = true.
Proof.
  intros species gidx.
  assert (H1 : 1 ≤ GeneInfo.start gidx) by (simpl; lia).
  assert (H2 : 0 ≤ GeneInfo.end_ gidx) by (simpl; lia).
  assert (H3 : GeneInfo.end_ gidx < GeneInfo.start gidx) by (simpl; lia).
  split; [exact H1|]. split; [exact H2|]. split; [exact H3|].
  exact (extractGene_inverted_range species gidx H1 H2 H3).
Defined.

(** X5: with a [start] of zero or less (an index counted from 0, say)
    and [0 <= end < len(sequence) + start], the slice bound
    [start - 1] is negative and counts from the end of the sequence, the
    slice is empty, and the result is [end - start + 1] times ['X'],
    judged invalid. *)
Theorem extractGene_start_not_positive
    (species : SpeciesInfo.t) (gidx : GeneInfo.t) :
  GeneInfo.start gidx ≤ 0 →
  0 ≤ GeneInfo.end_ gidx →
  GeneInfo.end_ gidx < Py.len (SpeciesInfo.sequence species) + GeneInfo.start gidx →
  SpeciesInfo.sequence (extractGene species gidx)
  = replicate (Z.to_nat (GeneInfo.end_ gidx - GeneInfo.start gidx + 1)) chX ∧
  isValidGene (extractGene species gidx) = false.
Proof.
  intros Hs He Hlt. rewrite extractGene_slice.
  assert (Hslice : Py.slice (SpeciesInfo.sequence species)
                     (GeneInfo.start gidx - 1) (GeneInfo.end_ gidx) = []).
  { unfold Py.slice, Py.adjust.
    destruct (Z.ltb_spec (GeneInfo.start gidx - 1) 0); [|lia].
    destruct (Z.ltb_spec (GeneInfo.end_ gidx) 0); [lia|].
    replace (Z.to_nat _) with 0%nat by lia. done. }
  rewrite Hslice, cleanup_nil. unfold genelen. split; [done|].
  apply isValidGene_all_X. lia.
Qed.

Lemma extractGene_start_not_positive_witness :
  let species := SpeciesInfo.mk (lit "A") (lit "ACGT") in
  let gidx := GeneInfo.mk (lit "G1") 0 2 in
  GeneInfo.start gidx ≤ 0 ∧
  0 ≤ GeneInfo.end_ gidx ∧
  GeneInfo.end_ gidx < Py.len (SpeciesInfo.sequence species) + GeneInfo.start gidx ∧
  SpeciesInfo.sequence (extractGene species gidx) = lit "XXX" ∧
  isValidGene (extractGene species gidx) = false.
Proof.
  intros species gidx.
  assert (H1 : GeneInfo.start gidx ≤ 0) by (simpl; lia).
  assert (H2 : 0 ≤ GeneInfo.end_ gidx) by (simpl; lia).
  assert (H3 : GeneInfo.end_ gidx
               < Py.len (SpeciesInfo.sequence species) + GeneInfo.start gidx)
    by (unfold Py.len; simpl; lia).
  split; [exact H1|]. split; [exact H2|]. split; [exact H3|].
  exact (extractGene_start_not_positive species gidx H1 H2 H3).
Defined.

(** X6: whatever the range, every character of the returned sequence is
    ['X'] or a character of the species sequence other than ['?']; and
    the name is the name of the species. *)
Theorem extractGene_characters
    (species : SpeciesInfo.t) (gidx : GeneInfo.t) :
  SpeciesInfo.name (extractGene species gidx) = SpeciesInfo.name species ∧
  ∀ c, c ∈ SpeciesInfo.sequence (extractGene species gidx) →
       c = chX ∨ (c ∈ SpeciesInfo.sequence species ∧ c ≠ chQuery).
Proof.
  split; [done|]. intros c. rewrite extractGene_slice. simpl. intros Hin.
  apply cleanup_characters in Hin as [->|[Hin Hq]]; [by left|].
  right. split; [|done]. eapply slice_subseteq. exact Hin.
Qed.

(** X7: for [1 <= start <= end], a character other than ['-'], ['?']
    and ['X'] among those the sequence has in the range makes the result
    valid, also when the range runs past the end of the sequence. *)
Theorem extractGene_informative_is_valid
    (species : SpeciesInfo.t) (gidx : GeneInfo.t) (c : ascii) :
  1 ≤ GeneInfo.start gidx →
  GeneInfo.start gidx ≤ GeneInfo.end_ gidx →
  c ∈ window species gidx →
  c ≠ chDash → c ≠ chQuery → c ≠ chX →
  c ∈ SpeciesInfo.sequence (extractGene species gidx) ∧
  isValidGene (extractGene species gidx) = true.
Proof.
  intros Hs He Hin Hd Hq HX.
  assert (Hc : c ∈ SpeciesInfo.sequence (extractGene species gidx)).
  { rewrite extractGene_cleanup by done. simpl.
    apply cleanup_keeps_informative; [|done..].
    pose proof (window_length species gidx). unfold genelen in *. lia. }
  split; [done|]. by apply (isValidGene_non_X _ c).
Qed.

Lemma extractGene_informative_is_valid_witness :
  let species := SpeciesInfo.mk (lit "A") (lit "X?-G") in
  let gidx := GeneInfo.mk (lit "G1") 2 9 in
  1 ≤ GeneInfo.start gidx ∧
  GeneInfo.start gidx ≤ GeneInfo.end_ gidx ∧
  isValidGene (extractGene species gidx) = true.
Proof.
  intros species gidx.
  assert (H1 : 1 ≤ GeneInfo.start gidx) by (simpl; lia).
  assert (H2 : GeneInfo.start gidx ≤ GeneInfo.end_ gidx) by (simpl; lia).
  split; [exact H1|]. split; [exact H2|].
  apply (extractGene_informative_is_valid species gidx "G"%char H1 H2);
    [elem_of_literal|done..].
Defined.

Lemma extractGene_characters_witness :
  let species := SpeciesInfo.mk (lit "A") (lit "-A?C") in
  let gidx := GeneInfo.mk (lit "G1") 1 6 in
  SpeciesInfo.sequence (extractGene species gidx) = lit "XXXAXC" ∧
  ∀ c, c ∈ SpeciesInfo.sequence (extractGene species gidx) →
       c = chX ∨ (c ∈ SpeciesInfo.sequence species ∧ c ≠ chQuery).
Proof.
  intros species gidx. split; [reflexivity|].
  apply (extractGene_characters species gidx).
Defined.

(** * Further properties of the aggregation *)

Lemma addSpeciesToGeneArray_cases (species : SpeciesInfo.t)
    (gene_indexes : list GeneInfo.t) (m : gmap str (list SpeciesInfo.t)) :
  ((∃ g, g ∈ gene_indexes ∧ isValidGene (extractGene species g) = true ∧
         GeneInfo.name g ∉ dom m) ∧
   addSpeciesToGeneArray species gene_indexes m = Raise KeyError)
  ∨
  ((∀ g, g ∈ gene_indexes → isValidGene (extractGene species g) = true →
         GeneInfo.name g ∈ dom m) ∧
   ∃ m', addSpeciesToGeneArray species gene_indexes m = Ok m' ∧ dom m' = dom m).
Proof.
  revert m. induction gene_indexes as [|g rest IH]; intros m.
  - right. split; [|by exists m]. intros g Hg. by apply elem_of_nil in Hg.
  - simpl. destruct (isValidGene (extractGene species g)) eqn:Hv.
    + unfold append_at. destruct (m !! GeneInfo.name g) as [l|] eqn:Hl; simpl.
      * assert (Hdom : dom (<[GeneInfo.name g := l ++ [extractGene species g]]> m)
                       = dom m).
        { apply dom_insert_lookup_L. by eexists. }
        destruct (IH (<[GeneInfo.name g := l ++ [extractGene species g]]> m))
          as [[(g' & Hg' & Hv' & Hmiss) Hrun]|[Hall (m' & Hrun & Hd)]].
        -- left. split; [|done]. exists g'. rewrite Hdom in Hmiss.
           split; [by apply elem_of_cons; right|done].
        -- right. split.
           ++ intros g' Hg' Hv'. apply elem_of_cons in Hg' as [->|Hg'].
              ** apply elem_of_dom. by eexists.
              ** rewrite <- Hdom. by apply Hall.
           ++ exists m'. split; [done|]. by rewrite Hd.
      * left. split; [|done]. exists g.
        split; [by apply elem_of_cons; left|]. split; [done|].
        by apply not_elem_of_dom.
    + destruct (IH m) as [[(g' & Hg' & Hv' & Hmiss) Hrun]|[Hall (m' & Hrun & Hd)]].
      * left. split; [|done]. exists g'. split; [by apply elem_of_cons; right|done].
      * right. split; [|by exists m'].
        intros g' Hg' Hv'. apply elem_of_cons in Hg' as [->|Hg']; [congruence|].
        by apply Hall.
Qed.

(** X8: [addSpeciesToGeneArray] raises [KeyError] exactly when some
    range whose extracted gene is valid has a name that is not a key of
    the dictionary (a range whose gene is invalid needs no key);
    otherwise it returns a dictionary with the same keys.  No other
    error is possible. *)
Theorem addSpeciesToGeneArray_KeyError (species : SpeciesInfo.t)
    (gene_indexes : list GeneInfo.t) (genelist : gmap str (list SpeciesInfo.t)) :
  (addSpeciesToGeneArray species gene_indexes genelist = Raise KeyError
   ↔ ∃ g, g ∈ gene_indexes ∧ isValidGene (extractGene species g) = true ∧
          genelist !! GeneInfo.name g = None) ∧
  (∀ e, addSpeciesToGeneArray species gene_indexes genelist = Raise e →
        e = KeyError) ∧
  (∀ genelist', addSpeciesToGeneArray species gene_indexes genelist = Ok genelist' →
                dom genelist' = dom genelist).
Proof.
  destruct (addSpeciesToGeneArray_cases species gene_indexes genelist)
    as [[(g & Hg & Hv & Hmiss) Hrun]|[Hall (m' & Hrun & Hd)]]; rewrite Hrun.
  - split; [|split].
    + split; [|done]. intros _. exists g. by rewrite <- not_elem_of_dom.
    + intros e [= <-]. done.
    + intros ? [=].
  - split; [|split].
    + split; [done|]. intros (g & Hg & Hv & Hmiss).
      apply not_elem_of_dom in Hmiss. exfalso. apply Hmiss. by apply Hall.
    + intros e [=].
    + intros ? [= <-]. done.
Qed.

Lemma addSpeciesToGeneArray_KeyError_witness :
  let species := SpeciesInfo.mk (lit "A") (lit "ACXX") in
  let g1 := GeneInfo.mk (lit "G1") 1 2 in
  let g2 := GeneInfo.mk (lit "G2") 3 4 in
  addSpeciesToGeneArray species [g1; g2] {[ lit "G2" := [] ]} = Raise KeyError ∧
  (∃ m, addSpeciesToGeneArray species [g1; g2] {[ lit "G1" := [] ]} = Ok m).
Proof.
  intros species g1 g2. split.
  - apply (addSpeciesToGeneArray_KeyError species [g1; g2] {[ lit "G2" := [] ]}).
    exists g1. split; [by apply elem_of_cons; left|]. split; reflexivity.
  - eexists. reflexivity.
Defined.

Lemma processFastaFile_lookup
    (species_list : list SpeciesInfo.t) (gene_indexes : list GeneInfo.t) :
  ∃ m, processFastaFile species_list gene_indexes = Ok m ∧
       ∀ k, m !! k
            = if bool_decide (k ∈ map GeneInfo.name gene_indexes)
              then Some (group_of k species_list gene_indexes)
              else None.
Proof.
  unfold processFastaFile.
  destruct (add_all_species_lookup species_list gene_indexes
              (init_gene_species gene_indexes ∅)) as (m & Hrun & Hlook).
  { intros g Hg. rewrite init_gene_species_lookup.
    rewrite bool_decide_eq_true_2; [by eexists|].
    apply list_elem_of_fmap. by exists g. }
  exists m. split; [done|]. intros k.
  rewrite Hlook, init_gene_species_lookup.
  case_bool_decide; [done|]. by rewrite lookup_empty.
Qed.

Lemma group_of_app (k : str) (l1 l2 : list SpeciesInfo.t)
    (gene_indexes : list GeneInfo.t) :
  group_of k (l1 ++ l2) gene_indexes
  = group_of k l1 gene_indexes ++ group_of k l2 gene_indexes.
Proof. unfold group_of. by rewrite map_app, concat_app. Qed.

(** X9: the groups of a species list made of two parts are, gene name by
    gene name, the groups of the first part followed by the groups of
    the second; a name that is not in the index has no group in any of
    the three. *)
Theorem processFastaFile_app (l1 l2 : list SpeciesInfo.t)
    (gene_indexes : list GeneInfo.t) (k : str) :
  group_in (processFastaFile (l1 ++ l2) gene_indexes) k
  = match group_in (processFastaFile l1 gene_indexes) k,
          group_in (processFastaFile l2 gene_indexes) k with
    | Some group1, Some group2 => Some (group1 ++ group2)
    | _, _ => None
    end.
Proof.
  destruct (processFastaFile_lookup (l1 ++ l2) gene_indexes) as (m & -> & Hm).
  destruct (processFastaFile_lookup l1 gene_indexes) as (m1 & -> & Hm1).
  destruct (processFastaFile_lookup l2 gene_indexes) as (m2 & -> & Hm2).
  simpl. rewrite Hm, Hm1, Hm2.
  case_bool_decide; [|done]. by rewrite group_of_app.
Qed.

Lemma group_of_elem (k : str) (species_list : list SpeciesInfo.t)
    (gene_indexes : list GeneInfo.t) (r : SpeciesInfo.t) :
  r ∈ group_of k species_list gene_indexes
  ↔ ∃ species g, species ∈ species_list ∧ g ∈ gene_indexes ∧
                 GeneInfo.name g = k ∧ r = extractGene species g ∧
                 isValidGene r = true.
Proof.
  unfold group_of, valid_genes_named.
  rewrite list_elem_of_In, in_concat. split.
  - intros (l & Hl & Hr). apply in_map_iff in Hl as (species & <- & Hsp).
    apply filter_In in Hr as [Hr Hv].
    apply in_map_iff in Hr as (g & <- & Hg).
    apply filter_In in Hg as [Hg Hname]. apply bool_decide_eq_true in Hname.
    exists species, g. by rewrite !list_elem_of_In.
  - intros (species & g & Hsp & Hg & Hname & -> & Hv).
    apply list_elem_of_In in Hsp. apply list_elem_of_In in Hg.
    eexists. split.
    + apply in_map_iff. by exists species.
    + apply filter_In. split; [|done]. apply in_map_iff. exists g.
      split; [done|]. apply filter_In. split; [done|].
      by apply bool_decide_eq_true.
Qed.

(** X10: a record is in the group of a gene name of the index exactly
    when it is the extracted gene of some species of the list for some
    range of that name and is judged valid: nothing invalid is kept,
    nothing valid is lost. *)
Theorem processFastaFile_group_members
    (species_list : list SpeciesInfo.t) (gene_indexes : list GeneInfo.t)
    (k : str) (r : SpeciesInfo.t) :
  k ∈ map GeneInfo.name gene_indexes →
  ∃ group, group_in (processFastaFile species_list gene_indexes) k = Some group ∧
    (r ∈ group
     ↔ ∃ species g, species ∈ species_list ∧ g ∈ gene_indexes ∧
                    GeneInfo.name g = k ∧ r = extractGene species g ∧
                    isValidGene r = true).
Proof.
  intros Hk.
  destruct (processFastaFile_lookup species_list gene_indexes) as (m & -> & Hm).
  simpl. rewrite Hm, bool_decide_eq_true_2 by done.
  eexists. split; [done|]. apply group_of_elem.
Qed.

Lemma processFastaFile_group_members_witness :
  let species_list := [SpeciesInfo.mk (lit "A") (lit "ACXX");
                       SpeciesInfo.mk (lit "B") (lit "XXGT")] in
  let gene_indexes := [GeneInfo.mk (lit "G1") 1 2; GeneInfo.mk (lit "G2") 3 4] in
  let r := SpeciesInfo.mk (lit "B") (lit "GT") in
  lit "G2" ∈ map GeneInfo.name gene_indexes ∧
  ∃ group,
    group_in (processFastaFile species_list gene_indexes) (lit "G2") = Some group ∧
    (r ∈ group
     ↔ ∃ species g, species ∈ species_list ∧ g ∈ gene_indexes ∧
                    GeneInfo.name g = lit "G2" ∧ r = extractGene species g ∧
                    isValidGene r = true).
Proof.
  intros species_list gene_indexes r.
  assert (Hk : lit "G2" ∈ map GeneInfo.name gene_indexes) by elem_of_literal.
  split; [exact Hk|].
  exact (processFastaFile_group_members species_list gene_indexes (lit "G2") r Hk).
Defined.

(** X11: with distinct gene names and [start <= end], the sequences in
    the group of a range all have [end - start + 1] characters, and the
    names in the group are the names of the species list with some left
    out, in the same order. *)
Theorem processFastaFile_group_aligned
    (species_list : list SpeciesInfo.t) (gene_indexes : list GeneInfo.t)
    (g : GeneInfo.t) :
  NoDup (map GeneInfo.name gene_indexes) →
  g ∈ gene_indexes →
  GeneInfo.start g ≤ GeneInfo.end_ g →
  ∃ group,
    group_in (processFastaFile species_list gene_indexes) (GeneInfo.name g)
    = Some group ∧
    Forall (λ r, Py.len (SpeciesInfo.sequence r)
                 = GeneInfo.end_ g - GeneInfo.start g + 1) group ∧
    map SpeciesInfo.name group `sublist_of` map SpeciesInfo.name species_list.
Proof.
  intros Hnd Hg Hse.
  destruct (processFastaFile_lookup species_list gene_indexes) as (m & -> & Hm).
  simpl. rewrite Hm, bool_decide_eq_true_2.
  2:{ apply list_elem_of_fmap. by exists g. }
  rewrite group_of_unique by done.
  eexists. split; [done|]. clear m Hm.
  induction species_list as [|species rest [IH1 IH2]]; simpl.
  - split; constructor.
  - destruct (isValidGene (extractGene species g)) eqn:Hv; simpl.
    + split.
      * constructor; [|done]. rewrite extractGene_slice. simpl.
        fold (genelen g). apply cleanup_len. by apply slice_fits.
      * by constructor.
    + split; [done|]. by constructor.
Qed.

Lemma processFastaFile_group_aligned_witness :
  let species_list := [SpeciesInfo.mk (lit "A") (lit "ACXX");
                       SpeciesInfo.mk (lit "B") (lit "T");
                       SpeciesInfo.mk (lit "C") (lit "--G")] in
  let g1 := GeneInfo.mk (lit "G1") 1 3 in
  let g2 := GeneInfo.mk (lit "G2") 3 4 in
  NoDup (map GeneInfo.name [g1; g2]) ∧
  ∃ group,
    group_in (processFastaFile species_list [g1; g2]) (lit "G1") = Some group ∧
    Forall (λ r, Py.len (SpeciesInfo.sequence r) = 3) group ∧
    map SpeciesInfo.name group `sublist_of` [lit "A"; lit "B"; lit "C"].
Proof.
  intros species_list g1 g2.
  assert (Hnd : NoDup (map GeneInfo.name [g1; g2])).
  { apply NoDup_cons. split; [|apply NoDup_singleton].
    rewrite list_elem_of_singleton. done. }
  split; [exact Hnd|].
  apply (processFastaFile_group_aligned species_list [g1; g2] g1 Hnd).
  - by apply elem_of_cons; left.
  - simpl. lia.
Defined.

(** * The alignment file reader *)

Lemma readSpecies_loop_named (fasta_file : list str) (name : str)
    (species_list : list SpeciesInfo.t) :
  readSpecies_loop fasta_file (Some name) species_list
  = Done (species_list ++ species_after name fasta_file).
Proof.
  revert name species_list.
  induction fasta_file as [|line rest IH]; intros name species_list; simpl.
  - by rewrite app_nil_r.
  - destruct (Py.startswith chGt (Py.rstrip chNewline line)).
    + apply IH.
    + rewrite IH, <- app_assoc. done.
Qed.

(** X12: [readSpecies] fails exactly when the file has a first line and
    that line is not a header: the name is read before any header has
    set it.  Nothing else makes it fail; a file whose first line is a
    header yields the species that follow it, and an empty file yields
    no species. *)
Theorem readSpecies_first_line (fasta_file : list str) :
  (readSpecies fasta_file = Failed UnboundLocalError
   ↔ ∃ line rest, fasta_file = line :: rest ∧
                  Py.startswith chGt (Py.rstrip chNewline line) = false) ∧
  (∀ f, readSpecies fasta_file = Failed f → f = UnboundLocalError) ∧
  (∀ line rest,
     fasta_file = line :: rest →
     Py.startswith chGt (Py.rstrip chNewline line) = true →
     readSpecies fasta_file
     = Done (species_after (drop 1 (Py.rstrip chNewline line)) rest)) ∧
  (fasta_file = [] → readSpecies fasta_file = Done []).
Proof.
  unfold readSpecies. destruct fasta_file as [|line rest].
  - repeat split; try done. intros (? & ? & ? & _). done.
  - simpl. destruct (Py.startswith chGt (Py.rstrip chNewline line)) eqn:Hh.
    + rewrite readSpecies_loop_named. simpl.
      assert (Hname : Py.slice (Py.rstrip chNewline line) 1
                               (Py.len (Py.rstrip chNewline line))
                      = drop 1 (Py.rstrip chNewline line)).
      { set (l := Py.rstrip chNewline line).
        unfold Py.slice, Py.adjust, Py.len.
        destruct (Z.ltb_spec (Z.of_nat (length l)) 0); [lia|]. simpl.
        rewrite Z.min_id.
        destruct l as [|x l]; [done|].
        rewrite Z.min_l by (simpl; lia). simpl.
        rewrite drop_0. apply take_ge. lia. }
      repeat split; try done.
      * intros (? & ? & [= <- <-] & Hd). congruence.
      * intros ? ? [= <- <-] _. by rewrite Hname.
    + repeat split; try done.
      * intros _. by exists line, rest.
      * by intros f [= <-].
      * intros ? ? [= <- <-] Ht. congruence.
Qed.

Lemma readSpecies_first_line_witness :
  let fasta_file := [lit ">A" ++ [chNewline]; lit "AC-G" ++ [chNewline];
                     lit ">B" ++ [chNewline]; lit ">C" ++ [chNewline];
                     lit "TTTT" ++ [chNewline]; lit "GGGG"] in
  readSpecies fasta_file
  = Done [SpeciesInfo.mk (lit "A") (lit "AC-G");
          SpeciesInfo.mk (lit "C") (lit "TTTT");
          SpeciesInfo.mk (lit "C") (lit "GGGG")].
Proof.
  intros fasta_file.
  destruct (readSpecies_first_line fasta_file) as (_ & _ & Hhead & _).
  rewrite (Hhead _ _ eq_refl eq_refl). reflexivity.
Defined.

Lemma species_after_sequences (name : str) (fasta_file : list str) :
  map SpeciesInfo.sequence (species_after name fasta_file)
  = List.filter (λ line, negb (Py.startswith chGt line))
      (map (Py.rstrip chNewline) fasta_file).
Proof.
  revert name. induction fasta_file as [|line rest IH]; intros name; simpl.
  - done.
  - destruct (Py.startswith chGt (Py.rstrip chNewline line)); simpl.
    + apply IH.
    + f_equal. apply IH.
Qed.

(** X13: when [readSpecies] returns, the sequences of the species are
    the lines that do not start with [>], in file order and without
    their newline: there is one species per such line, a header followed
    by another header yields none, and every line after a header until
    the next one yields a species of that header's name. *)
Theorem readSpecies_sequences (fasta_file : list str)
    (species_list : list SpeciesInfo.t) :
  readSpecies fasta_file = Done species_list →
  map SpeciesInfo.sequence species_list
  = List.filter (λ line, negb (Py.startswith chGt line))
      (map (Py.rstrip chNewline) fasta_file).
Proof.
  unfold readSpecies. destruct fasta_file as [|line rest]; simpl.
  - by intros [= <-].
  - destruct (Py.startswith chGt (Py.rstrip chNewline line)) eqn:Hh; [|done].
    rewrite readSpecies_loop_named. simpl. intros [= <-].
    apply species_after_sequences.
Qed.

Lemma readSpecies_sequences_witness :
  let fasta_file := [lit ">A" ++ [chNewline]; lit ">B" ++ [chNewline];
                     lit "AC" ++ [chNewline]; lit "GT" ++ [chNewline]] in
  let species_list := [SpeciesInfo.mk (lit "B") (lit "AC");
                       SpeciesInfo.mk (lit "B") (lit "GT")] in
  readSpecies fasta_file = Done species_list ∧
  map SpeciesInfo.sequence species_list = [lit "AC"; lit "GT"].
Proof.
  intros fasta_file species_list.
  assert (Hread : readSpecies fasta_file = Done species_list) by reflexivity.
  split; [exact Hread|].
  exact (readSpecies_sequences fasta_file species_list Hread).
Defined.

(** * The gene file writer *)

Lemma write_species_records (species_list : list SpeciesInfo.t) (genefile : str) :
  write_species species_list genefile = genefile ++ records species_list.
Proof.
  revert genefile. induction species_list as [|species rest IH];
    intros genefile; simpl.
  - unfold records. simpl. by rewrite app_nil_r.
  - rewrite IH. unfold write, records. cbn [map concat]. unfold record.
    rewrite <- !app_assoc. simpl. by rewrite <- !app_assoc.
Qed.

Lemma records_app (l1 l2 : list SpeciesInfo.t) :
  records (l1 ++ l2) = records l1 ++ records l2.
Proof. unfold records. by rewrite map_app, concat_app. Qed.


Lemma writeGenesSpecies_lookup_eq (genename : str)
    (species_list : list SpeciesInfo.t) (fs : gmap str str) :
  writeGenesSpecies genename species_list fs !! gene_file genename
  = Some (default [] (fs !! gene_file genename) ++ records species_list).
Proof.
  unfold writeGenesSpecies. by rewrite lookup_insert_eq, write_species_records.
Qed.



Lemma file_lines_line (line rest : str) :
  chNewline ∉ line →
  file_lines (line ++ chNewline :: rest) = (line ++ [chNewline]) :: file_lines rest.
Proof.
  induction line as [|c line IH]; intros Hnl; simpl.
  - done.
  - apply not_elem_of_cons in Hnl as [Hc Hline].
    destruct (Ascii.eqb_spec c chNewline) as [?|_]; [congruence|].
    by rewrite IH.
Qed.

Lemma rstrip_line (line : str) :
  chNewline ∉ line → Py.rstrip chNewline (line ++ [chNewline]) = line.
Proof.
  intros Hnl. change [chNewline] with (replicate 1 chNewline).
  rewrite rstrip_app_replicate. apply rstrip_id. intros Hlast. apply Hnl. by apply last_Some_elem_of.
Qed.

Lemma slice_tail (c : ascii) (s : str) :
  Py.slice (c :: s) 1 (Py.len (c :: s)) = s.
Proof.
  unfold Py.slice, Py.adjust, Py.len.
  destruct (Z.ltb_spec (Z.of_nat (length (c :: s))) 0); [lia|]. simpl.
  rewrite Z.min_id, Z.min_l by lia. simpl. rewrite drop_0.
  apply take_ge. lia.
Qed.

Lemma startswith_false (c : ascii) (s : str) :
  head s ≠ Some c → Py.startswith c s = false.
Proof.
  destruct s as [|x s]; simpl; [done|]. intros Hne.
  destruct (Ascii.eqb_spec x c) as [->|?]; done.
Qed.

Lemma readSpecies_loop_records (written : list SpeciesInfo.t)
    (sname : option str) (species_list : list SpeciesInfo.t) :
  Forall writable written →
  readSpecies_loop (file_lines (records written)) sname species_list
  = Done (species_list ++ written).
Proof.
  intros Hall. revert sname species_list.
  induction Hall as [|[name seq] rest (Hname & Hseq & Hhead) _ IH];
    intros sname species_list.
  - simpl. by rewrite app_nil_r.
  - simpl in Hname, Hseq, Hhead.
    change (records (SpeciesInfo.mk name seq :: rest))
      with (([chGt] ++ name ++ [chNewline] ++ seq ++ [chNewline]) ++ records rest).
    replace (([chGt] ++ name ++ [chNewline] ++ seq ++ [chNewline]) ++ records rest)
      with ((chGt :: name) ++ chNewline :: seq ++ chNewline :: records rest).
    2:{ simpl. rewrite <- !app_assoc. simpl. by rewrite <- !app_assoc. }
    rewrite file_lines_line.
    2:{ apply not_elem_of_cons. by split. }
    rewrite file_lines_line by done.
    cbn [readSpecies_loop].
    rewrite rstrip_line.
    2:{ apply not_elem_of_cons. by split. }
    cbn [Py.startswith]. rewrite Ascii.eqb_refl.
    rewrite slice_tail, rstrip_line by done.
    rewrite startswith_false by done.
    rewrite IH, <- app_assoc. done.
Qed.

(** X15: what [writeGenesSpecies] writes, [readSpecies] reads back: for
    species whose names and sequences have no newline and whose
    sequences do not start with [>], reading the file of a gene that was
    not there before, after two calls have written to it, returns the
    species of the first call followed by those of the second. *)
Theorem writeGenesSpecies_readSpecies (genename : str)
    (l1 l2 : list SpeciesInfo.t) (fs : gmap str str) :
  Forall writable l1 → Forall writable l2 →
  fs !! gene_file genename = None →
  ∃ content,
    writeGenesSpecies genename l2 (writeGenesSpecies genename l1 fs)
      !! gene_file genename = Some content ∧
    readSpecies (file_lines content) = Done (l1 ++ l2).
Proof.
  intros H1 H2 Hnew. eexists. split.
  - rewrite !writeGenesSpecies_lookup_eq, Hnew. simpl. done.
  - rewrite <- records_app. unfold readSpecies.
    rewrite readSpecies_loop_records; [done|]. by apply Forall_app.
Qed.

Lemma writeGenesSpecies_readSpecies_witness :
  let l1 := [SpeciesInfo.mk (lit "A") (lit "AC-G")] in
  let l2 := [SpeciesInfo.mk (lit "B") (lit "") ; SpeciesInfo.mk (lit ">C") (lit "XX")] in
  Forall writable l1 ∧ Forall writable l2 ∧
  ∃ content,
    writeGenesSpecies (lit "G1") l2 (writeGenesSpecies (lit "G1") l1 ∅)
      !! gene_file (lit "G1") = Some content ∧
    readSpecies (file_lines content) = Done (l1 ++ l2).
Proof.
  intros l1 l2.
  assert (H1 : Forall writable l1) by (apply (bool_decide_unpack _); by vm_compute).
  assert (H2 : Forall writable l2) by (apply (bool_decide_unpack _); by vm_compute).
  split; [exact H1|]. split; [exact H2|].
  exact (writeGenesSpecies_readSpecies (lit "G1") l1 l2 ∅ H1 H2 (lookup_empty _)).
Defined.

(** * The run over the files *)


Section RunProperties.

Variable dict_items :
  gmap str (list SpeciesInfo.t) → list (str * list SpeciesInfo.t).

(** The iteration over a dictionary yields every key once. *)
Hypothesis dict_items_perm : ∀ m, dict_items m ≡ₚ map_to_list m.





End RunProperties.



(** * Further properties of the index parser *)

Lemma split_tokens (s : str) :
  Forall (λ t, t ≠ [] ∧ Forall (λ c, Ascii.is_space c = false) t) (Py.split s).
Proof.
  induction s as [|x s IH]; [constructor|].
  cbn [Py.split]. destruct (Ascii.is_space x) eqn:Hx; [done|].
  destruct s as [|y s]; [by repeat constructor|].
  destruct (Ascii.is_space y) eqn:Hy.
  - constructor; [by repeat constructor | done].
  - destruct (Py.split (y :: s)) as [|w ws]; [by repeat constructor|].
    apply Forall_cons in IH as [[_ Hw] Hws].
    constructor; [|done]. split; [done|]. by constructor.
Qed.

Lemma split_blank (s : str) :
  Forall (λ c, Ascii.is_space c = true) s → Py.split s = [].
Proof.
  induction 1 as [|x s Hx _ IH]; [done|]. cbn [Py.split]. by rewrite Hx.
Qed.

Lemma rstrip_Forall (P : ascii → Prop) (c : ascii) (s : str) :
  Forall P s → Forall P (Py.rstrip c s).
Proof.
  destruct (rstrip_decomp c s) as [k Hk]. rewrite Hk at 1.
  by intros [? _]%Forall_app.
Qed.

(** X18: a line that is empty or holds white space only, such as an
    empty last line of the index file, stops [readGeneIndexes] with
    [IndexError], whatever follows it. *)
Theorem readGeneIndexes_blank_line (good : list str) (blank : str)
    (rest : list str) :
  Forall (λ l, ¬ rejected l) good →
  Forall (λ c, Ascii.is_space c = true) blank →
  parse_index_line blank = Raise IndexError ∧
  readGeneIndexes (good ++ blank :: rest) = Raise IndexError.
Proof.
  intros Hgood Hblank.
  assert (Hparse : parse_index_line blank = Raise IndexError).
  { unfold parse_index_line. rewrite split_blank; [done|].
    by apply rstrip_Forall. }
  split; [done|]. by apply readGeneIndexes_loop_rejected.
Qed.

Lemma readGeneIndexes_blank_line_witness :
  let good := [lit "charset G1 = 2 - 5 ;" ++ [chNewline]] in
  let blank := [chNewline] in
  Forall (λ l, ¬ rejected l) good ∧
  Forall (λ c, Ascii.is_space c = true) blank ∧
  readGeneIndexes (good ++ [blank]) = Raise IndexError.
Proof.
  intros good blank.
  assert (Hgood : Forall (λ l, ¬ rejected l) good).
  { repeat constructor.
    apply (parses_not_rejected _ (GeneInfo.mk (lit "G1") 2 5)). reflexivity. }
  assert (Hblank : Forall (λ c, Ascii.is_space c = true) blank)
    by (repeat constructor).
  split; [exact Hgood|]. split; [exact Hblank|].
  apply (readGeneIndexes_blank_line good blank [] Hgood Hblank).
Defined.

(** X19: a gene that the parser returns has a name that is not empty
    and has no white space in it, and its name, start and end are the
    tokens 1, 3 and 5 of the line: the tokens 0, 2 and 4 and everything
    after token 5 play no part. *)
Theorem parse_index_line_tokens (line : str) (g : GeneInfo.t) :
  parse_index_line line = Ok g →
  GeneInfo.name g ≠ [] ∧
  Forall (λ c, Ascii.is_space c = false) (GeneInfo.name g) ∧
  ∃ f3 f5,
    Py.split (Py.rstrip chNewline line) !! 1%nat = Some (GeneInfo.name g) ∧
    Py.split (Py.rstrip chNewline line) !! 3%nat = Some f3 ∧
    Py.split (Py.rstrip chNewline line) !! 5%nat = Some f5 ∧
    Py.int f3 = Ok (GeneInfo.start g) ∧
    Py.int f5 = Ok (GeneInfo.end_ g).
Proof.
  unfold parse_index_line, Py.getitem.
  pose proof (split_tokens (Py.rstrip chNewline line)) as Htok.
  set (fields := Py.split (Py.rstrip chNewline line)) in *.
  destruct (fields !! 1%nat) as [f1|] eqn:H1; simpl; [|done].
  destruct (fields !! 3%nat) as [f3|] eqn:H3; simpl; [|done].
  destruct (Py.int f3) as [gstart|] eqn:Hint3; simpl; [|done].
  destruct (fields !! 5%nat) as [f5|] eqn:H5; simpl; [|done].
  destruct (Py.int f5) as [gend|] eqn:Hint5; simpl; [|done].
  intros [= <-]. simpl.
  rewrite Forall_lookup in Htok. destruct (Htok 1%nat f1 H1) as [Hne Hsp].
  split; [done|]. split; [done|]. by exists f3, f5.
Qed.

Lemma parse_index_line_tokens_witness :
  let line := lit "gene   G1 is	-3 to +12 and more" ++ [chNewline] in
  let g := GeneInfo.mk (lit "G1") (-3) 12 in
  parse_index_line line = Ok g ∧
  GeneInfo.name g ≠ [] ∧
  Forall (λ c, Ascii.is_space c = false) (GeneInfo.name g).
Proof.
  intros line g.
  assert (Hparse : parse_index_line line = Ok g) by reflexivity.
  split; [exact Hparse|].
  destruct (parse_index_line_tokens line g Hparse) as (Hne & Hsp & _).
  split; [exact Hne | exact Hsp].
Defined.

Lemma readGeneIndexes_loop_ok (idx_file : list str)
    (gene_list gene_list' : list GeneInfo.t) :
  readGeneIndexes_loop idx_file gene_list = Ok gene_list'
  ↔ ∃ parsed, gene_list' = gene_list ++ parsed ∧
              Forall2 (λ l g, parse_index_line l = Ok g) idx_file parsed.
Proof.
  revert gene_list. induction idx_file as [|line rest IH]; intros gene_list; simpl.
  - split.
    + intros [= <-]. exists []. by rewrite app_nil_r.
    + intros (parsed & -> & Hall). apply Forall2_nil_inv_l in Hall as ->.
      by rewrite app_nil_r.
  - destruct (parse_index_line line) as [g|e] eqn:Hline; simpl.
    + rewrite IH. split.
      * intros (parsed & -> & Hall). exists (g :: parsed).
        split; [by rewrite <- app_assoc|]. by constructor.
      * intros (parsed & -> & Hall).
        apply Forall2_cons_inv_l in Hall as (g' & parsed' & Hg' & Hall & ->).
        assert (g' = g) as -> by congruence.
        exists parsed'. split; [by rewrite <- app_assoc|done].
    + split; [done|]. intros (parsed & _ & Hall).
      apply Forall2_cons_inv_l in Hall as (g' & parsed' & Hg' & _ & _).
      congruence.
Qed.

(** X20: [readGeneIndexes] returns a gene list exactly when every line
    parses, and the list then holds the genes of the lines, one per
    line, in file order; an index file without lines gives the empty
    list. *)
Theorem readGeneIndexes_ok (idx_file : list str) (gene_list : list GeneInfo.t) :
  readGeneIndexes idx_file = Ok gene_list
  ↔ Forall2 (λ l g, parse_index_line l = Ok g) idx_file gene_list.
Proof.
  unfold readGeneIndexes. rewrite readGeneIndexes_loop_ok. split.
  - by intros (parsed & -> & Hall).
  - intros Hall. by exists gene_list.
Qed.
